(** * A shallow embedding of the Tetris game of rajamohamed/tetris-game

    Two versions of [App.tsx] are embedded:
    - the simple ruleset ([src/App.tsx], also [part_001]): one preview
      piece, pure random supply, flat scoring, no hold;
    - the richer ruleset ([part_000]): a 7-bag supply, three preview
      pieces, hold, tiered scoring.

    Boards ([number[][]]) are [list (list Z)], pieces are records, JS
    numbers used as indices and coordinates are [Z].  Code that can
    throw (a [TypeError] on [undefined]) or loop forever returns
    [option]: [None] is the throw or the divergence. *)

From Stdlib Require Import ZArith Lia.
From stdpp Require Import base list.

Open Scope Z_scope.

(** ** Constants and data *)

Definition ROWS : Z := 20.
Definition COLS : Z := 10.

Abbreviation board := (list (list Z)) (only parsing).

(** [type Piece = { shape: number[][]; x: number; y: number; colorIdx: number }] *)
Record Piece := mkPiece {
  shape : list (list Z);
  x : Z;
  y : Z;
  colorIdx : Z
}.

(** Record updates [{...p, x: v}] and friends. *)
Definition with_x (p : Piece) (v : Z) : Piece := mkPiece (shape p) v (y p) (colorIdx p).
Definition with_y (p : Piece) (v : Z) : Piece := mkPiece (shape p) (x p) v (colorIdx p).
Definition with_shape (p : Piece) (s : list (list Z)) : Piece := mkPiece s (x p) (y p) (colorIdx p).

(** [SHAPES] (identical in both versions). *)
Definition SHAPES : list (list (list Z)) := [
  [[1;1];[1;1]];         (* O *)
  [[1;1;1;1]];           (* I *)
  [[0;1;0];[1;1;1]];     (* T *)
  [[0;1;1];[1;1;0]];     (* S *)
  [[1;1;0];[0;1;1]];     (* Z *)
  [[1;0;0];[1;1;1]];     (* L *)
  [[0;0;1];[1;1;1]]      (* J *)
].

(** [Array(COLS).fill(0)] and [emptyGrid()]. *)
Definition emptyRow : list Z := replicate (Z.to_nat COLS) 0.
Definition emptyGrid : board := replicate (Z.to_nat ROWS) emptyRow.

(** ** Array helpers with the JS callback indices *)

(** [arr.some((a, i) => f(i, a))], starting the index at [i]. *)
Fixpoint some_from {A} (f : nat -> A -> bool) (i : nat) (l : list A) : bool :=
  match l with
  | [] => false
  | a :: l' => f i a || some_from f (S i) l'
  end.

Definition some {A} (f : nat -> A -> bool) (l : list A) : bool := some_from f 0 l.

(** [arr.forEach((a, i) => ...)] over a state that the callback updates;
    a throwing callback ([None]) aborts the loop. *)
Fixpoint forEach_from {A St} (f : nat -> A -> St -> option St) (i : nat)
    (l : list A) (s : St) : option St :=
  match l with
  | [] => Some s
  | a :: l' => f i a s ≫= forEach_from f (S i) l'
  end.

Definition forEach {A St} (f : nat -> A -> St -> option St) (l : list A) (s : St) : option St :=
  forEach_from f 0 l s.

(** [g[r][c]] as a number.  [collides] reads it only for [0 <= r < ROWS]
    and [0 <= c < COLS], inside a ROWS x COLS board; a read past the end
    of a row gives [undefined], which is falsy like [0].  A missing row
    ([g[r]] undefined) would throw; the model reads [0] there, so it
    follows the source on boards of at least ROWS rows only. *)
Definition at2 (g : board) (r c : Z) : Z :=
  match g !! Z.to_nat r with
  | Some row => match row !! Z.to_nat c with Some v => v | None => 0 end
  | None => 0
  end.

(** ** Collision ([collides], both versions)

    [v && (p.y+dy>=ROWS || p.x+dx<0 || p.x+dx>=COLS || (p.y+dy>=0 && g[p.y+dy][p.x+dx]))] *)
Definition cell_hits (g : board) (p : Piece) (dy dx : nat) (v : Z) : bool :=
  let r := y p + Z.of_nat dy in
  let c := x p + Z.of_nat dx in
  negb (v =? 0) &&
  ((ROWS <=? r) || (c <? 0) || (COLS <=? c) || ((0 <=? r) && negb (at2 g r c =? 0))).

Definition collides (g : board) (p : Piece) : bool :=
  some (fun dy row => some (fun dx v => cell_hits g p dy dx v) row) (shape p).

(** An occupied cell of the piece: [shape[dy][dx]] is a non-zero number. *)
Definition occupied (p : Piece) (dy dx : nat) : Prop :=
  exists row v, shape p !! dy = Some row /\ row !! dx = Some v /\ v <> 0.

(** ** Locking: [merge] ([src/App.tsx]) and the merge inside [lockPiece] ([part_000])

    [ng[r][c] = v] on the copy [ng = g.map(r=>[...r])].  [ng[r]] is
    [undefined] for [r] past the board: the assignment throws a
    [TypeError] ([None]).  A negative [c] sets a non-index property, which
    leaves the row's elements unchanged.  A [c] at or past the row's end
    grows the row with holes; the model does not follow that case and
    returns [None] for it as well. *)
Definition write_cell (r c v : Z) (ng : board) : option board :=
  match ng !! Z.to_nat r with
  | None => None
  | Some row =>
      if c <? 0 then Some ng
      else if Z.of_nat (length row) <=? c then None
      else Some (<[Z.to_nat r := <[Z.to_nat c := v]> row]> ng)
  end.

(** [p.shape.forEach((row,dy)=>row.forEach((v,dx)=>{
      if(v && p.y+dy>=0) ng[p.y+dy][p.x+dx] = p.colorIdx+1; }))] *)
Definition merge (g : board) (p : Piece) : option board :=
  forEach (fun dy row ng =>
    forEach (fun dx v ng =>
      if negb (v =? 0) && (0 <=? y p + Z.of_nat dy)
      then write_cell (y p + Z.of_nat dy) (x p + Z.of_nat dx) (colorIdx p + 1) ng
      else Some ng) row ng) (shape p) g.

(** ** [clearLines] (both versions) *)

(** [while(kept.length<ROWS) kept.unshift(Array(COLS).fill(0))], run
    [n] times. *)
Fixpoint unshift_empty (n : nat) (kept : board) : board :=
  match n with
  | O => kept
  | S n' => unshift_empty n' (emptyRow :: kept)
  end.

Definition clearLines (g : board) : board * Z :=
  let kept := List.filter (fun r => some (fun _ c => c =? 0) r) g in
  let cleared := ROWS - Z.of_nat (length kept) in
  (unshift_empty (Z.to_nat (ROWS - Z.of_nat (length kept))) kept, cleared).

(** ** Rotation *)

(** [src/App.tsx]: [m[0].map((_,i)=>m.map(r=>r[i]).reverse())].
    [m[0]] on an empty matrix throws; an [undefined] entry [r[i]] (a row
    shorter than [m[0]]) is not a number and is not modelled ([None]). *)
Definition rotate_app (m : list (list Z)) : option (list (list Z)) :=
  match m with
  | [] => None
  | r0 :: _ => mapM (fun i => reverse <$> mapM (fun r => r !! i) m) (seq 0 (length r0))
  end.

(** [for (let i = start; i < start + n; i++) body(i)] *)
Fixpoint for_loop {St} (body : nat -> St -> option St) (i n : nat) (s : St) : option St :=
  match n with
  | O => Some s
  | S n' => body i s ≫= for_loop body (S i) n'
  end.

(** [part_000]: [rotated = cols x rows zeros;
    rotated[j][rows - 1 - i] = shape[i][j]] for all [i < rows], [j < cols]. *)
Definition rotate_loop (m : list (list Z)) : option (list (list Z)) :=
  match m with
  | [] => None
  | r0 :: _ =>
      let rows := length m in
      let cols := length r0 in
      for_loop (fun i acc =>
        for_loop (fun j acc =>
          v ← m !! i ≫= (fun r => r !! j);
          Some (alter (fun row => <[(rows - 1 - i)%nat := v]> row) j acc))
          0 cols acc)
        0 rows (replicate cols (replicate rows 0))
  end.

(** ** Scoring *)

(** [calculateScore] ([part_000]). *)
Definition calculateScore (lines level : Z) : Z :=
  let baseScore :=
    if lines =? 1 then 100
    else if lines =? 2 then 300
    else if lines =? 3 then 500
    else if lines =? 4 then 800
    else 0 in
  baseScore * (level + 1).

(** The table of the spec: 1 -> 100, 2 -> 300, 3 -> 500, 4 -> 800, else 0. *)
Definition spec_line_table (n : Z) : Z :=
  match n with
  | 1 => 100
  | 2 => 300
  | 3 => 500
  | 4 => 800
  | _ => 0
  end.

(** ** Piece supply *)

(** [Math.floor(Math.random() * (i + 1))] is an integer in [[0, i]]; it
    is written [u mod (i + 1)] for an arbitrary random draw [u].  [us]
    lists the draws of one shuffle, in order. *)
Definition rand_index (us : list nat) (i : nat) : nat := (default 0%nat (head us) mod (i + 1))%nat.

(** [[this.bag[i], this.bag[j]] = [this.bag[j], this.bag[i]]] *)
Definition swap (i j : nat) (b : list Z) : list Z :=
  let bi := b !!! i in
  let bj := b !!! j in
  <[j := bi]> (<[i := bj]> b).

(** [for (let i = n; i > 0; i--) { j = ...; swap(i, j) }] *)
Fixpoint fisher_yates (i : nat) (us : list nat) (b : list Z) : list Z :=
  match i with
  | O => b
  | S i' => fisher_yates i' (tail us) (swap i (rand_index us i) b)
  end.

Definition bag_init : list Z := [0; 1; 2; 3; 4; 5; 6].

(** [refillBag()] *)
Definition refillBag (us : list nat) : list Z :=
  fisher_yates (length bag_init - 1) us bag_init.

(** The type index drawn by [PieceBag.next()] and the pool left:
    [if (this.bag.length === 0) this.refillBag(); this.bag.pop()!].
    [us] are the draws a refill would use. *)
Definition bag_next (us : list nat) (bag : list Z) : option (Z * list Z) :=
  let b := match bag with [] => refillBag us | _ => bag end in
  c ← last b;
  Some (c, removelast b).

(** Consecutive calls of [next()], one list of random draws per call. *)
Fixpoint bag_draws (uss : list (list nat)) (bag : list Z) : option (list Z * list Z) :=
  match uss with
  | [] => Some ([], bag)
  | us :: uss' =>
      '(c, bag1) ← bag_next us bag;
      '(cs, bag2) ← bag_draws uss' bag1;
      Some (c :: cs, bag2)
  end.

(** Pools the bag can hold: after [new PieceBag()] and after any [next()]. *)
Inductive bag_reachable : list Z -> Prop :=
  | bag_reach_new us : bag_reachable (refillBag us)
  | bag_reach_next us bag c bag' :
      bag_reachable bag -> bag_next us bag = Some (c, bag') -> bag_reachable bag'.

(** [Math.floor((COLS - shape[0].length) / 2)]; [shape[0]] throws on an
    empty shape. *)
Definition centered_x (s : list (list Z)) : option Z :=
  match s with
  | [] => None
  | r0 :: _ => Some ((COLS - Z.of_nat (length r0)) / 2)
  end.

(** The piece of type [k], as built by [randomPiece] and [PieceBag.next]. *)
Definition spawn (k : Z) : option Piece :=
  s ← SHAPES !! Z.to_nat k;
  cx ← centered_x s;
  Some (mkPiece s cx 0 k).

(** [randomPiece()] of [src/App.tsx], with [rand(7) = u mod 7]. *)
Definition randomPiece (u : nat) : Piece :=
  let k := Z.of_nat (u mod 7) in
  let s := SHAPES !!! Z.to_nat k in
  mkPiece s ((COLS - Z.of_nat (length (s !!! 0%nat))) / 2) 0 k.

(** ** Descent loops

    [while (!collides(grid, {...np, y: np.y + 1})) np.y++], run with
    [fuel] iterations at most; [None] when the fuel runs out.  The loop
    terminates iff some fuel gives [Some].  It is [getGhostPiece]
    ([part_000]) and the loop of [hardDrop] and of the [ArrowUp] key of
    [src/App.tsx]. *)
Fixpoint drop_loop (fuel : nat) (g : board) (p : Piece) : option Piece :=
  match fuel with
  | O => None
  | S f =>
      if collides g (with_y p (y p + 1)) then Some p
      else drop_loop f g (with_y p (y p + 1))
  end.

Definition getGhostPiece (fuel : nat) (p : Piece) (g : board) : option Piece :=
  drop_loop fuel g p.

(** The loop of [hardDrop] in [part_000], which also counts [dropDistance]. *)
Fixpoint hardDrop_loop (fuel : nat) (g : board) (p : Piece) (d : Z) : option (Piece * Z) :=
  match fuel with
  | O => None
  | S f =>
      if collides g (with_y p (y p + 1)) then Some (p, d)
      else hardDrop_loop f g (with_y p (y p + 1)) (d + 1)
  end.

(** Fuel for the session models: one more than the rows left below the
    piece, which is enough for every shape with an occupied cell. *)
Definition loop_fuel (p : Piece) : nat := S (Z.to_nat (ROWS - y p)).

(** ** Intents

    Keys that reach the handlers: [ArrowLeft], [ArrowRight], [ArrowDown],
    [ArrowUp], [' '], ['c'] (hold), ['p'] (pause) and any other key.  The
    reset key ['r'] is not part of this model. *)
Inductive key := KLeft | KRight | KDown | KUp | KSpace | KHold | KPause | KOther.

(** ** The simple ruleset ([src/App.tsx]) *)
Module Simple.

Record State := mkState {
  grid : board;
  piece : Piece;
  nextPiece : Piece;
  score : Z;
  level : Z;
  started : bool;
  over : bool;
  paused : bool
}.

Definition set_piece (s : State) (p : Piece) : State :=
  mkState (grid s) p (nextPiece s) (score s) (level s) (started s) (over s) (paused s).
Definition set_over (s : State) (b : bool) : State :=
  mkState (grid s) (piece s) (nextPiece s) (score s) (level s) (started s) b (paused s).
Definition set_paused (s : State) (b : bool) : State :=
  mkState (grid s) (piece s) (nextPiece s) (score s) (level s) (started s) (over s) b.

(** The lock branch of the gravity callback: [merge], [clearLines],
    [setScore(s=>s+10+cleared*100)], [setLevel(l=>l+cleared)],
    [setPiece(nextPiece)], [setNextPiece(randomPiece())]. *)
Definition lock (u : nat) (s : State) (p : Piece) : option State :=
  merged ← merge (grid s) p;
  let '(newGrid, cleared) := clearLines merged in
  Some (mkState newGrid (nextPiece s) (randomPiece u) (score s + 10 + cleared * 100)
          (level s + cleared) (started s) (over s) (paused s)).

(** One firing of the gravity interval; no interval runs unless the game
    is started, not over and not paused.  [u] is the draw of the
    [randomPiece()] a lock makes. *)
Definition gravity (u : nat) (s : State) : option State :=
  if negb (started s) || over s || paused s then Some s else
  let p := piece s in
  let nxt := with_y p (y p + 1) in
  if collides (grid s) nxt then
    if y p =? 0 then Some (set_over s true)
    else lock u s p
  else Some (set_piece s nxt).

(** The candidate [np] of the [setPiece] updater of [onKey]. *)
Definition onKey_np (k : key) (g : board) (p : Piece) : option Piece :=
  match k with
  | KLeft => Some (with_x p (x p - 1))
  | KRight => Some (with_x p (x p + 1))
  | KDown => Some (with_y p (y p + 1))
  | KSpace => rs ← rotate_app (shape p); Some (with_shape p rs)
  | KUp => drop_loop (loop_fuel p) g p
  | _ => Some p
  end.

(** The two keydown listeners: [onKey] ([return collides(grid,np)?p:np])
    and the pause listener ([if (e.key === 'p') setPaused(p => !p)]). *)
Definition onKey (k : key) (s : State) : option State :=
  if negb (started s) || over s then Some s else
  let p := piece s in
  np ← onKey_np k (grid s) p;
  let s1 := set_piece s (if collides (grid s) np then p else np) in
  Some (match k with KPause => set_paused s1 (negb (paused s1)) | _ => s1 end).

(** The gravity interval: [Math.max(100, START_SPEED-level*20)]. *)
Definition speed (level : Z) : Z := Z.max 100 (500 - level * 20).

(** [resetGame] (the countdown is not modelled): [u1] and [u2] are the
    draws of the two [randomPiece()] calls; [paused] is left as it is. *)
Definition resetGame (u1 u2 : nat) (s : State) : State :=
  mkState emptyGrid (randomPiece u1) (randomPiece u2) 0 0 false false (paused s).

End Simple.

(** ** The richer ruleset ([part_000]) *)
Module Rich.

Record State := mkState {
  grid : board;
  piece : option Piece;
  nextPieces : list Piece;
  holdPiece : option Piece;
  canHold : bool;
  score : Z;
  level : Z;
  lines : Z;
  started : bool;
  over : bool;
  paused : bool;
  bag : list Z
}.

Definition set_piece (s : State) (p : option Piece) : State :=
  mkState (grid s) p (nextPieces s) (holdPiece s) (canHold s) (score s) (level s)
    (lines s) (started s) (over s) (paused s) (bag s).
Definition set_paused (s : State) (b : bool) : State :=
  mkState (grid s) (piece s) (nextPieces s) (holdPiece s) (canHold s) (score s) (level s)
    (lines s) (started s) (over s) b (bag s).

(** [pieceBag.current.next()]: the drawn piece and the pool left. *)
Definition bagNext (us : list nat) (b : list Z) : option (Piece * list Z) :=
  '(c, b') ← bag_next us b;
  p ← spawn c;
  Some (p, b').

(** [lockPiece]; [us] are the draws of the refill [next()] may make.
    [nextPieces[0]] is [undefined] on an empty queue, and [collides] on it
    throws. *)
Definition lockPiece (us : list nat) (s : State) : option State :=
  match piece s with
  | None => Some s
  | Some p =>
      merged ← merge (grid s) p;
      let '(newGrid, cleared) := clearLines merged in
      let score' := if 0 <? cleared then score s + calculateScore cleared (level s) else score s in
      let lines' := if 0 <? cleared then lines s + cleared else lines s in
      let newPiece := nextPieces s !! 0%nat in
      '(drawn, bag') ← bagNext us (bag s);
      let newNextPieces := drop 1 (nextPieces s) ++ [drawn] in
      over' ← (q ← newPiece; Some (over s || collides newGrid q));
      Some (mkState newGrid newPiece newNextPieces (holdPiece s) true score' (level s)
              lines' (started s) over' (paused s) bag')
  end.

(** [rotatePiece] *)
Definition rotatePiece (s : State) : option State :=
  match piece s with
  | None => Some s
  | Some p =>
      rs ← rotate_loop (shape p);
      let rp := with_shape p rs in
      if negb (collides (grid s) rp) then Some (set_piece s (Some rp)) else Some s
  end.

(** [hardDrop]: move down while possible, add [dropDistance * 2]. *)
Definition hardDrop (s : State) : option State :=
  match piece s with
  | None => Some s
  | Some p =>
      '(dp, d) ← hardDrop_loop (loop_fuel p) (grid s) p 0;
      Some (mkState (grid s) (Some dp) (nextPieces s) (holdPiece s) (canHold s)
              (score s + d * 2) (level s) (lines s) (started s) (over s) (paused s) (bag s))
  end.

(** [holdPieceAction] *)
Definition holdPieceAction (us : list nat) (s : State) : option State :=
  match piece s with
  | None => Some s
  | Some p =>
      if negb (canHold s) then Some s else
      match holdPiece s with
      | Some h =>
          cx ← centered_x (shape p);
          hx ← centered_x (shape h);
          Some (mkState (grid s) (Some (mkPiece (shape h) hx 0 (colorIdx h))) (nextPieces s)
                  (Some (mkPiece (shape p) cx 0 (colorIdx p))) false (score s) (level s)
                  (lines s) (started s) (over s) (paused s) (bag s))
      | None =>
          cx ← centered_x (shape p);
          '(drawn, bag') ← bagNext us (bag s);
          Some (mkState (grid s) (nextPieces s !! 0%nat) (drop 1 (nextPieces s) ++ [drawn])
                  (Some (mkPiece (shape p) cx 0 (colorIdx p))) false (score s) (level s)
                  (lines s) (started s) (over s) (paused s) bag')
      end
  end.

(** One firing of the gravity interval. *)
Definition gravity (us : list nat) (s : State) : option State :=
  if negb (started s) || over s || paused s then Some s else
  match piece s with
  | None => Some s
  | Some p =>
      let nxt := with_y p (y p + 1) in
      if collides (grid s) nxt then lockPiece us s else Some (set_piece s (Some nxt))
  end.

(** A horizontal move: [collides(grid, newPiece) ? p : newPiece]. *)
Definition shift (dx : Z) (s : State) : option State :=
  match piece s with
  | None => Some s
  | Some p =>
      let np := with_x p (x p + dx) in
      Some (if collides (grid s) np then s else set_piece s (Some np))
  end.

(** [handleKeyDown] *)
Definition handleKeyDown (us : list nat) (k : key) (s : State) : option State :=
  if negb (started s) || over s || paused s then Some s else
  match k with
  | KLeft => shift (-1) s
  | KRight => shift 1 s
  | KDown =>
      match piece s with
      | None => Some s
      | Some p =>
          let np := with_y p (y p + 1) in
          if collides (grid s) np then lockPiece us s else Some (set_piece s (Some np))
      end
  | KUp => hardDrop s
  | KSpace => rotatePiece s
  | KHold => holdPieceAction us s
  | KPause => Some (set_paused s (negb (paused s)))
  | KOther => Some s
  end.

(** The gravity interval: [Math.max(100, START_SPEED - level * 30)]. *)
Definition speed (level : Z) : Z := Z.max 100 (500 - level * 30).

(** The level effect: [const newLevel = Math.floor(lines / 10);
    if (newLevel !== level) setLevel(newLevel)]. *)
Definition syncLevel (s : State) : State :=
  let newLevel := lines s / 10 in
  if negb (newLevel =? level s) then
    mkState (grid s) (piece s) (nextPieces s) (holdPiece s) (canHold s) (score s) newLevel
      (lines s) (started s) (over s) (paused s) (bag s)
  else s.

(** [resetGame] (the countdown and the audio are not modelled):
    [pieceBag.current = new PieceBag()] refills with the draws [u0], then
    [initialPieces] are three [next()] with the draws [us1], [us2], [us3];
    [paused] is left as it is. *)
Definition resetGame (u0 us1 us2 us3 : list nat) (s : State) : option State :=
  '(p1, b1) ← bagNext us1 (refillBag u0);
  '(p2, b2) ← bagNext us2 b1;
  '(p3, b3) ← bagNext us3 b2;
  Some (mkState emptyGrid (Some p1) [p1; p2; p3] None true 0 0 0 false false (paused s) b3).

End Rich.

(** ** Notions used by the statements *)

(** A board of ROWS rows of COLS cells. *)
Definition board_wf (B : board) : Prop :=
  length B = Z.to_nat ROWS /\ Forall (fun row => length row = Z.to_nat COLS) B.

(** The occupied cell [(dy, dx)] of [P] lands on board cell [(r, c)]. *)
Definition hitc (P : Piece) (r c dy dx : nat) : Prop :=
  occupied P dy dx /\ y P + Z.of_nat dy = Z.of_nat r /\ x P + Z.of_nat dx = Z.of_nat c.

(** Board cell [(r, c)] (a row [>= 0]) is covered by an occupied cell of [P]. *)
Definition covers (P : Piece) (r c : nat) : Prop := exists dy dx, hitc P r c dy dx.

(** Every occupied cell of [P] with a row [>= 0] lies inside the board. *)
Definition piece_in_bounds (P : Piece) : Prop :=
  forall dy dx, occupied P dy dx -> 0 <= y P + Z.of_nat dy ->
    y P + Z.of_nat dy < ROWS /\ 0 <= x P + Z.of_nat dx < COLS.

(** [m'] is the clockwise rotation of the [R x C] matrix [m]: a [C x R]
    matrix with [m'[j][R-1-i] = m[i][j]]. *)
Definition rotated_ok (m m' : list (list Z)) (R C : nat) : Prop :=
  length m' = C /\ Forall (fun row => length row = R) m' /\
  forall i j : nat, (i < R)%nat -> (j < C)%nat ->
    m' !! j ≫= (fun row => row !! (R - 1 - i)%nat) = m !! i ≫= (fun row => row !! j).

(** The O piece as spawned: [x = floor((COLS - 2) / 2)], [y = 0]. *)
Definition O_spawned : Piece := mkPiece [[1;1];[1;1]] 4 0 0.

(** A board whose every cell is occupied. *)
Definition fullBoard : board := replicate (Z.to_nat ROWS) (replicate (Z.to_nat COLS) 1).

(** A session of the richer ruleset in which keys are handled and gravity runs. *)
Definition rich_running (s : Rich.State) : Prop :=
  Rich.started s = true /\ Rich.over s = false /\ Rich.paused s = false.

(** Intents the richer ruleset rejects: a move or rotation whose result
    collides, and a hold while the hold-used flag is set. *)
Definition rich_rejected (s : Rich.State) (k : key) : Prop :=
  match Rich.piece s, k with
  | Some p, KLeft => collides (Rich.grid s) (with_x p (x p - 1)) = true
  | Some p, KRight => collides (Rich.grid s) (with_x p (x p + 1)) = true
  | Some p, KSpace =>
      exists rs, rotate_loop (shape p) = Some rs /\ collides (Rich.grid s) (with_shape p rs) = true
  | _, KHold => Rich.canHold s = false
  | _, _ => False
  end.

(** Intents the simple ruleset rejects: a move, soft drop or rotation whose
    result collides. *)
Definition simple_rejected (s : Simple.State) (k : key) : Prop :=
  let p := Simple.piece s in
  match k with
  | KLeft => collides (Simple.grid s) (with_x p (x p - 1)) = true
  | KRight => collides (Simple.grid s) (with_x p (x p + 1)) = true
  | KDown => collides (Simple.grid s) (with_y p (y p + 1)) = true
  | KSpace =>
      exists rs, rotate_app (shape p) = Some rs /\ collides (Simple.grid s) (with_shape p rs) = true
  | _ => False
  end.

(** A running simple session with the O piece resting on the floor of the
    empty board. *)
Definition simple_resting : Simple.State :=
  Simple.mkState emptyGrid (with_y O_spawned 18) O_spawned 0 0 true false false.

(** The same situation in the richer ruleset. *)
Definition rich_resting : Rich.State :=
  Rich.mkState emptyGrid (Some (with_y O_spawned 18)) [O_spawned; O_spawned; O_spawned] None true
    0 0 0 true false false [].

(** A running richer session with an empty held slot and a free hold. *)
Definition rich_fresh : Rich.State :=
  Rich.mkState emptyGrid (Some O_spawned) [O_spawned; O_spawned; O_spawned] None true
    0 0 0 true false false [].

(** A ROWS x COLS board whose cells are [0] (empty) or a colour number
    [1 .. 7], so that [COLORS[cell - 1]] is defined for every filled cell. *)
Definition grid_ok (g : board) : Prop :=
  board_wf g /\ Forall (Forall (fun v => 0 <= v <= 7)) g.

(** Every row has an empty cell: no full row is left on the board. *)
Definition no_full_row (g : board) : Prop := Forall (fun r => 0 ∈ r) g.

(** A spawned piece: [SHAPES[k]] centred at the top, with colour index [k]. *)
Definition spawned (p : Piece) : Prop := 0 <= colorIdx p <= 6 /\ spawn (colorIdx p) = Some p.

(** The piece supply of a richer session: three pieces in the preview
    queue, each a spawned piece, and a pool the bag can hold. *)
Definition rich_supply_ok (s : Rich.State) : Prop :=
  length (Rich.nextPieces s) = 3%nat /\ Forall spawned (Rich.nextPieces s) /\
  bag_reachable (Rich.bag s).

(** A tetromino-like shape: a non-empty rectangular matrix of at most
    4 x 4 cells with an occupied cell. *)
Definition shape_ok (sh : list (list Z)) : Prop :=
  exists R C : nat, (0 < R <= 4)%nat /\ (0 < C <= 4)%nat /\ length sh = R /\
    Forall (fun r => length r = C) sh /\
    exists dy dx row v, sh !! dy = Some row /\ row !! dx = Some v /\ v <> 0.

(** An active piece: a tetromino-like shape, a colour index in [0 .. 6]
    and its cells of rows [>= 0] inside the board. *)
Definition piece_ok (p : Piece) : Prop :=
  shape_ok (shape p) /\ 0 <= colorIdx p <= 6 /\ piece_in_bounds p.

(** A richer session as [resetGame] leaves it and as every intent and
    tick keeps it. *)
Definition rich_ok (s : Rich.State) : Prop :=
  grid_ok (Rich.grid s) /\ rich_supply_ok s /\
  (exists p, Rich.piece s = Some p /\ piece_ok p) /\
  (forall h, Rich.holdPiece s = Some h -> shape_ok (shape h) /\ 0 <= colorIdx h <= 6).

(** A simple session as it starts and as every key and tick keeps it. *)
Definition simple_ok (s : Simple.State) : Prop :=
  grid_ok (Simple.grid s) /\ piece_ok (Simple.piece s) /\ spawned (Simple.nextPiece s).

(** Sequences of events of a richer session: key presses handled by
    [handleKeyDown] and firings of the gravity interval, each with its
    random draws. *)
Inductive rich_run : Rich.State -> Rich.State -> Prop :=
  | rich_run_done s : rich_run s s
  | rich_run_key us k s s1 s' :
      Rich.handleKeyDown us k s = Some s1 -> rich_run s1 s' -> rich_run s s'
  | rich_run_tick us s s1 s' :
      Rich.gravity us s = Some s1 -> rich_run s1 s' -> rich_run s s'.

(** Sequences of events of a simple session: key presses handled by the
    two keydown listeners ([onKey]) and firings of the gravity interval. *)
Inductive simple_run : Simple.State -> Simple.State -> Prop :=
  | simple_run_done s : simple_run s s
  | simple_run_key k s s1 s' :
      Simple.onKey k s = Some s1 -> simple_run s1 s' -> simple_run s s'
  | simple_run_tick u s s1 s' :
      Simple.gravity u s = Some s1 -> simple_run s1 s' -> simple_run s s'.

(** ** Generic facts on the helpers *)

Lemma some_from_true {A} (f : nat -> A -> bool) (l : list A) i :
  some_from f i l = true <-> exists k a, l !! k = Some a /\ f (i + k)%nat a = true.
Proof.
  revert i; induction l as [|a l IH]; intros i; simpl.
  - split; [discriminate|]. intros (k & a & H & _). done.
  - rewrite orb_true_iff, IH. split.
    + intros [H|(k & b & Hk & Hf)].
      * exists 0%nat, a. rewrite Nat.add_0_r. done.
      * exists (S k), b. rewrite Nat.add_succ_r. done.
    + intros (k & b & Hk & Hf). destruct k as [|k]; simpl in Hk.
      * injection Hk as ->. left. rewrite Nat.add_0_r in Hf. done.
      * right. exists k, b. rewrite Nat.add_succ_r in Hf. done.
Qed.

Lemma some_true {A} (f : nat -> A -> bool) (l : list A) :
  some f l = true <-> exists k a, l !! k = Some a /\ f k a = true.
Proof. unfold some. rewrite some_from_true. done. Qed.

Lemma at2_nonzero g r c :
  at2 g r c <> 0 <->
  exists brow b, g !! Z.to_nat r = Some brow /\ brow !! Z.to_nat c = Some b /\ b <> 0.
Proof.
  unfold at2. destruct (g !! Z.to_nat r) as [brow|]; [|split; [done|naive_solver]].
  destruct (brow !! Z.to_nat c) as [b|] eqn:E; split.
  - intros. eauto.
  - intros (? & ? & [= <-] & E' & ?). congruence.
  - done.
  - intros (? & ? & [= <-] & E' & ?). congruence.
Qed.

(** ** Theorems *)

(** Claim C1: [collides(B, P)] is true iff some occupied cell of [P],
    translated by [(P.x, P.y)], has its column outside [[0, COLS)], or its
    row at or past [ROWS], or has a row [>= 0] and lands on a non-empty
    cell of [B].  A cell with a negative row is tested only against the
    bounds.  (The equivalence holds for every board, in particular every
    ROWS x COLS one.) *)
Theorem collides_spec (B : board) (P : Piece) :
  collides B P = true <->
  exists dy dx, occupied P dy dx /\
    let r := y P + Z.of_nat dy in
    let c := x P + Z.of_nat dx in
    (c < 0 \/ COLS <= c \/ ROWS <= r \/
     (0 <= r /\ exists brow b, B !! Z.to_nat r = Some brow /\
                               brow !! Z.to_nat c = Some b /\ b <> 0)).
Proof.
  unfold collides, occupied. rewrite some_true. split.
  - intros (dy & row & Hrow & Hin). apply some_true in Hin as (dx & v & Hv & Hc).
    exists dy, dx. unfold cell_hits in Hc. simpl.
    apply andb_true_iff in Hc as [Hv0 Hc].
    apply negb_true_iff, Z.eqb_neq in Hv0.
    split; [eauto|].
    repeat rewrite orb_true_iff in Hc. rewrite andb_true_iff in Hc.
    destruct Hc as [[[H|H]|H]|[H1 H2]].
    + apply Z.leb_le in H. lia.
    + apply Z.ltb_lt in H. lia.
    + apply Z.leb_le in H. lia.
    + apply Z.leb_le in H1. apply negb_true_iff, Z.eqb_neq, at2_nonzero in H2. auto.
  - intros (dy & dx & (row & v & Hrow & Hv & Hv0) & Hc). exists dy, row. split; [done|].
    apply some_true. exists dx, v. split; [done|]. unfold cell_hits.
    apply andb_true_iff. split; [apply negb_true_iff, Z.eqb_neq; done|].
    repeat rewrite orb_true_iff. rewrite andb_true_iff. simpl in Hc.
    destruct Hc as [H|[H|[H|[H1 H2]]]].
    + left; left; right. apply Z.ltb_lt. lia.
    + left; right. apply Z.leb_le. lia.
    + left; left; left. apply Z.leb_le. lia.
    + right. split; [apply Z.leb_le; lia|]. apply negb_true_iff, Z.eqb_neq, at2_nonzero. done.
Qed.

(** Claim C7: under the tiered policy, the points for a lock clearing [n]
    lines at level [level] are [table[n] * (level + 1)] with the table
    1 -> 100, 2 -> 300, 3 -> 500, 4 -> 800 and 0 elsewhere; four rows
    at level 0 give exactly 800 points. *)
Theorem calculateScore_table (n level : Z) :
  calculateScore n level = spec_line_table n * (level + 1) /\ calculateScore 4 0 = 800.
Proof.
  split; [|reflexivity].
  unfold calculateScore, spec_line_table.
  repeat (destruct (Z.eqb_spec n _); [subst; reflexivity|]).
  destruct n as [|p|p]; try reflexivity.
  repeat (destruct p as [p|p|]; try reflexivity); congruence.
Qed.

(** ** [clearLines] *)

Lemma has_zero_filter (B : board) :
  List.filter (fun r => some (fun _ c => c =? 0) r) B = filter (fun r => 0 ∈ r) B.
Proof.
  induction B as [|r B IH]; [done|]. cbn [List.filter]. rewrite (filter_cons (fun r0 : list Z => 0 ∈ r0) r B), IH.
  destruct (some (fun _ c => c =? 0) r) eqn:E; destruct (decide (0 ∈ r)) as [Hin|Hin]; try done.
  - exfalso. apply Hin. apply some_true in E as (k & a & Hk & Ha).
    apply Z.eqb_eq in Ha as ->. by eapply list_elem_of_lookup_2.
  - exfalso. apply list_elem_of_lookup in Hin as (k & Hk).
    assert (some (fun _ c => c =? 0) r = true) as E'.
    { apply some_true. exists k, 0. rewrite Hk. done. }
    congruence.
Qed.

Lemma unshift_empty_replicate n (kept : board) :
  unshift_empty n kept = replicate n emptyRow ++ kept.
Proof.
  revert kept; induction n as [|n IH]; intros kept; [done|].
  simpl. rewrite IH.
  change (emptyRow :: replicate n emptyRow ++ kept) with (replicate (S n) emptyRow ++ kept).
  rewrite replicate_S_end, <-app_assoc. done.
Qed.

Lemma length_filter_complement (B : board) :
  (length (filter (fun r => (0:Z) ∈ r) B) + length (filter (fun r => (0:Z) ∉ r) B))%nat
  = length B.
Proof.
  rewrite <-length_app. apply Permutation_length, filter_app_complement.
Qed.

(** Claim C3: on a board of exactly ROWS rows, [clearLines] removes the
    full rows (those with no empty cell), keeps the others in order, puts
    as many empty rows on top, returns a board of ROWS rows and reports
    the number of full rows; with no full row it returns [(B, 0)]. *)
Theorem clearLines_spec (B : board) (HB : length B = Z.to_nat ROWS) :
  let nfull := length (filter (fun r => 0 ∉ r) B) in
  clearLines B = (replicate nfull emptyRow ++ filter (fun r => 0 ∈ r) B, Z.of_nat nfull) /\
  length (clearLines B).1 = Z.to_nat ROWS /\
  ((forall r, r ∈ B -> 0 ∈ r) -> clearLines B = (B, 0)).
Proof.
  intros nfull.
  assert (Hsplit := length_filter_complement B).
  assert (Hc : clearLines B =
    (replicate nfull emptyRow ++ filter (fun r => 0 ∈ r) B, Z.of_nat nfull)).
  { unfold clearLines. rewrite has_zero_filter, unshift_empty_replicate.
    unfold ROWS in *. subst nfull.
    assert (Z.to_nat (20 - Z.of_nat (length (filter (fun r => 0 ∈ r) B)))
            = length (filter (fun r => 0 ∉ r) B)) as -> by lia.
    f_equal. lia. }
  split; [exact Hc|]. split.
  - rewrite Hc. simpl. rewrite length_app, length_replicate. subst nfull. lia.
  - intros Hall. rewrite Hc.
    assert (filter (fun r => 0 ∈ r) B = B) as Hk.
    { clear -Hall. induction B as [|r B IH]; [done|].
      rewrite (filter_cons_True (fun r0 : list Z => 0 ∈ r0)) by (apply Hall; left).
      f_equal. apply IH. intros r' Hr'. apply Hall. by right. }
    assert (nfull = 0%nat) as Hn.
    { subst nfull. rewrite Hk in Hsplit. lia. }
    rewrite Hn, Hk. done.
Qed.

(** Witness of C3: the empty board with its bottom row filled. *)
Lemma clearLines_spec_witness :
  length (replicate 19 emptyRow ++ [replicate 10 1]) = Z.to_nat ROWS /\
  clearLines (replicate 19 emptyRow ++ [replicate 10 1]) = (emptyGrid, 1).
Proof.
  split; [reflexivity|].
  destruct (clearLines_spec (replicate 19 emptyRow ++ [replicate 10 1]) eq_refl) as [H _].
  rewrite H. vm_compute. reflexivity.
Defined.

(** ** The O piece on the empty board *)

(** Claim C6 (counterexample): the O piece spawns at [x = 4, y = 0], and
    its 19th one-row move, from [y = 18] to [y = 19], already collides:
    the piece is two rows tall, so not all of the first 19 moves succeed. *)
Lemma O_piece_19th_move_collides :
  spawn 0 = Some O_spawned /\ randomPiece 0 = O_spawned /\
  collides emptyGrid (with_y O_spawned 18) = false /\
  collides emptyGrid (with_y O_spawned 19) = true.
Proof. vm_compute. repeat split. Qed.

(** Claim C6 (as amended): on the empty 20 x 10 board the O piece spawned
    at [x = floor((COLS-2)/2) = 4, y = 0] does not collide, each of the
    first 18 one-row moves (to [y = 1 .. 18]) succeeds, the 19th attempt
    (to [y = 19]) collides, and the descent loop stops with the piece
    resting on the floor at [y = 18] (rows 18 and 19). *)
Theorem O_piece_descent (k : nat) (Hk : (k <= 18)%nat) :
  spawn 0 = Some O_spawned /\
  collides emptyGrid (with_y O_spawned (Z.of_nat k)) = false /\
  collides emptyGrid (with_y O_spawned 19) = true /\
  getGhostPiece (loop_fuel O_spawned) O_spawned emptyGrid = Some (with_y O_spawned 18).
Proof.
  split; [reflexivity|]. split; [|split; vm_compute; reflexivity].
  do 19 (destruct k as [|k]; [vm_compute; reflexivity|]). lia.
Qed.

Lemma O_piece_descent_witness :
  (7 <= 18)%nat /\ collides emptyGrid (with_y O_spawned 7) = false.
Proof.
  split; [lia|]. apply (O_piece_descent 7). lia.
Defined.

(** ** [merge] *)

Lemma forEach_from_ok {A St} (f : nat -> A -> St -> option St) (Inv : nat -> St -> Prop)
    (l : list A) (i : nat) (s : St) :
  Inv i s ->
  (forall k a s, l !! k = Some a -> Inv (i + k)%nat s ->
     exists s', f (i + k)%nat a s = Some s' /\ Inv (S (i + k)) s') ->
  exists s', forEach_from f i l s = Some s' /\ Inv (i + length l)%nat s'.
Proof.
  revert i s; induction l as [|a l IH]; intros i s H0 Hstep; simpl.
  - exists s. rewrite Nat.add_0_r. done.
  - destruct (Hstep 0%nat a s) as (s1 & E1 & I1); [done|rewrite Nat.add_0_r; done|].
    rewrite Nat.add_0_r in E1, I1. rewrite E1. simpl.
    destruct (IH (S i) s1 I1) as (s2 & E2 & I2).
    { intros k b s' Hk Hi. replace (S i + k)%nat with (i + S k)%nat in * by lia.
      apply Hstep; done. }
    exists s2. split; [done|]. replace (i + S (length l))%nat with (S i + length l)%nat by lia.
    done.
Qed.

Section Merge.
Variables (B : board) (P : Piece).

(** The copy [ng] agrees with [B] except on the cells hit by the piece
    cells of [D] already processed, which hold [colorIdx + 1]. *)
Definition MInv (D : nat -> nat -> Prop) (ng : board) : Prop :=
  board_wf ng /\
  forall r c : nat, (r < 20)%nat -> (c < 10)%nat ->
    ((exists dy dx, D dy dx /\ hitc P r c dy dx) ->
       ng !! r ≫= (fun row => row !! c) = Some (colorIdx P + 1)) /\
    (~ (exists dy dx, D dy dx /\ hitc P r c dy dx) ->
       ng !! r ≫= (fun row => row !! c) = B !! r ≫= (fun row => row !! c)).

Lemma MInv_ext (D1 D2 : nat -> nat -> Prop) ng :
  (forall r c dy dx, hitc P r c dy dx -> (D1 dy dx <-> D2 dy dx)) ->
  MInv D1 ng -> MInv D2 ng.
Proof.
  intros Heq [Hwf Hv]. split; [done|]. intros r c Hr Hc.
  destruct (Hv r c Hr Hc) as [H1 H2]. split.
  - intros (dy & dx & HD & Hh). apply H1. exists dy, dx.
    split; [|done]. eapply Heq; [exact Hh|done].
  - intros Hn. apply H2. intros (dy & dx & HD & Hh). apply Hn. exists dy, dx.
    split; [|done]. eapply Heq; [exact Hh|done].
Qed.

Lemma occupied_lookup dy dx row v :
  shape P !! dy = Some row -> row !! dx = Some v ->
  (occupied P dy dx <-> v <> 0).
Proof.
  intros Hr Hv. unfold occupied. split.
  - intros (row' & v' & Hr' & Hv' & Hne). congruence.
  - intros Hne. eauto.
Qed.

Lemma merge_cell_step (HP : piece_in_bounds P) D dy dx row v ng :
  shape P !! dy = Some row -> row !! dx = Some v -> MInv D ng ->
  exists ng',
    (if negb (v =? 0) && (0 <=? y P + Z.of_nat dy)
     then write_cell (y P + Z.of_nat dy) (x P + Z.of_nat dx) (colorIdx P + 1) ng
     else Some ng) = Some ng' /\
    MInv (fun a b => D a b \/ (a = dy /\ b = dx)) ng'.
Proof.
  intros Hrow Hv HI.
  destruct (negb (v =? 0) && (0 <=? y P + Z.of_nat dy)) eqn:Ew.
  - apply andb_true_iff in Ew as [Hv0 Hy0].
    apply negb_true_iff, Z.eqb_neq in Hv0. apply Z.leb_le in Hy0.
    assert (Hocc : occupied P dy dx) by (eapply occupied_lookup; eauto).
    destruct (HP dy dx Hocc Hy0) as [Hr0 Hc0].
    destruct HI as [[Hlen Hrows] Hval]. unfold ROWS, COLS in *.
    set (r0 := Z.to_nat (y P + Z.of_nat dy)). set (c0 := Z.to_nat (x P + Z.of_nat dx)).
    destruct (lookup_lt_is_Some_2 ng r0) as [nrow Hnrow]; [subst r0; rewrite Hlen; lia|].
    assert (Hnlen : length nrow = 10%nat).
    { eapply Forall_lookup_1 in Hrows; [exact Hrows|exact Hnrow]. }
    unfold write_cell. cbn beta. fold r0. rewrite Hnrow.
    destruct (Z.ltb_spec (x P + Z.of_nat dx) 0); [lia|].
    destruct (Z.leb_spec (Z.of_nat (length nrow)) (x P + Z.of_nat dx)); [rewrite Hnlen in *; lia|].
    fold c0. eexists. split; [reflexivity|]. split.
    + split; [rewrite length_insert; done|].
      apply Forall_insert; [done|]. rewrite length_insert. done.
    + intros r c Hr Hc. destruct (Hval r c Hr Hc) as [Hv1 Hv2].
      destruct (decide (r = r0 /\ c = c0)) as [[-> ->]|Hne].
      * rewrite list_lookup_insert_eq by lia. simpl.
        rewrite list_lookup_insert_eq by lia. split; [done|].
        intros Hn. exfalso. apply Hn. exists dy, dx. split; [right; done|].
        split; [done|]. subst r0 c0. split; lia.
      * assert (Hnot : ~ hitc P r c dy dx).
        { intros (_ & E1 & E2). apply Hne. subst r0 c0. split; lia. }
        assert (Hlk : <[r0:=<[c0:=colorIdx P + 1]> nrow]> ng !! r ≫= (fun row0 => row0 !! c)
                      = ng !! r ≫= (fun row0 => row0 !! c)).
        { destruct (decide (r = r0)) as [->|Hr0'].
          - rewrite list_lookup_insert_eq by lia. rewrite Hnrow. simpl.
            rewrite list_lookup_insert_ne; [done|]. intros ->. apply Hne. done.
          - rewrite list_lookup_insert_ne; done. }
        rewrite Hlk. split.
        -- intros (a & b & [HD|[-> ->]] & Hh); [apply Hv1; eauto|done].
        -- intros Hn. apply Hv2. intros (a & b & HD & Hh). apply Hn. eauto.
  - exists ng. split; [done|]. revert HI. apply MInv_ext.
    intros r c a b (Hocc & Er & Ec). split; [auto|]. intros [HD|[-> ->]]; [done|].
    exfalso. apply andb_false_iff in Ew as [Ew|Ew].
    + apply negb_false_iff, Z.eqb_eq in Ew as ->.
      eapply occupied_lookup in Hocc; eauto.
    + apply Z.leb_gt in Ew. lia.
Qed.

Lemma merge_row_step (HP : piece_in_bounds P) dy row ng :
  shape P !! dy = Some row -> MInv (fun a _ => (a < dy)%nat) ng ->
  exists ng',
    forEach (fun dx v ng =>
      if negb (v =? 0) && (0 <=? y P + Z.of_nat dy)
      then write_cell (y P + Z.of_nat dy) (x P + Z.of_nat dx) (colorIdx P + 1) ng
      else Some ng) row ng = Some ng' /\
    MInv (fun a _ => (a < S dy)%nat) ng'.
Proof.
  intros Hrow HI. unfold forEach.
  destruct (forEach_from_ok (fun dx v ng =>
      if negb (v =? 0) && (0 <=? y P + Z.of_nat dy)
      then write_cell (y P + Z.of_nat dy) (x P + Z.of_nat dx) (colorIdx P + 1) ng
      else Some ng)
    (fun dx ng => MInv (fun a b => (a < dy)%nat \/ (a = dy /\ (b < dx)%nat)) ng) row 0 ng)
    as (ng' & E & HI').
  - revert HI. apply MInv_ext. intros r c a b _. lia.
  - intros k v s Hk Hs. simpl in *.
    destruct (merge_cell_step HP _ dy k row v s Hrow Hk Hs) as (s' & Es & Hs').
    exists s'. split; [exact Es|]. revert Hs'. apply MInv_ext. intros r c a b _. lia.
  - exists ng'. split; [exact E|]. revert HI'. apply MInv_ext.
    intros r c a b ((row' & v & Hrow' & Hv & _) & _). simpl.
    split; [lia|]. intros Ha.
    destruct (decide (a = dy)) as [->|]; [|lia].
    rewrite Hrow in Hrow'. injection Hrow' as <-.
    apply lookup_lt_Some in Hv. lia.
Qed.

End Merge.

(** ** Facts on [merge] *)

Lemma forEach_from_inv {A St} (f : nat -> A -> St -> option St) (I : St -> Prop)
    (l : list A) (i : nat) (s s' : St) :
  (forall k a t t', f k a t = Some t' -> I t -> I t') ->
  forEach_from f i l s = Some s' -> I s -> I s'.
Proof.
  intros Hf. revert i s; induction l as [|a l IH]; intros i s E Hs; simpl in E.
  - injection E as <-. done.
  - destruct (f i a s) as [t|] eqn:Ef; simpl in E; [|discriminate].
    eapply IH; [exact E|]. eapply Hf; eauto.
Qed.

Lemma forEach_from_all {A St} (f : nat -> A -> St -> option St) (I : St -> Prop)
    (l : list A) (i : nat) (s s' : St) :
  (forall k a t t', f k a t = Some t' -> I t -> I t') ->
  I s -> forEach_from f i l s = Some s' ->
  forall k a, l !! k = Some a -> exists t t', I t /\ f (i + k)%nat a t = Some t'.
Proof.
  intros Hf. revert i s; induction l as [|b l IH]; intros i s Hs E k a Hk; [done|].
  cbn [forEach_from] in E.
  destruct (f i b s) as [t|] eqn:Ef; cbn [mbind option_bind] in E; [|discriminate].
  destruct k as [|k]; simpl in Hk.
  - inversion Hk; subst. exists s, t. rewrite Nat.add_0_r. done.
  - destruct (IH (S i) t (Hf _ _ _ _ Ef Hs) E k a Hk) as (u & u' & Hu & Eu).
    exists u, u'. rewrite Nat.add_succ_r. done.
Qed.

Lemma write_cell_length r c v (ng ng' : board) :
  write_cell r c v ng = Some ng' -> length ng' = length ng.
Proof.
  unfold write_cell. destruct (ng !! Z.to_nat r); [|discriminate].
  destruct (c <? 0); [intros E; injection E as <-; done|].
  destruct (_ <=? c); [discriminate|]. intros E; injection E as <-. apply length_insert.
Qed.


(** A piece with an occupied cell at or below the bottom row makes [merge]
    throw on every ROWS-row board: [ng[p.y + dy]] is [undefined] there. *)
Lemma merge_past_bottom (B : board) (P : Piece) dy dx :
  length B = Z.to_nat ROWS -> occupied P dy dx -> ROWS <= y P + Z.of_nat dy -> merge B P = None.
Proof.
  intros HL (row & v & Hrow & Hv & Hv0) Hy.
  destruct (merge B P) as [B'|] eqn:E; [exfalso|done].
  set (cell := fun dy dx v ng =>
    if negb (v =? 0) && (0 <=? y P + Z.of_nat dy)
    then write_cell (y P + Z.of_nat dy) (x P + Z.of_nat dx) (colorIdx P + 1) ng
    else Some ng).
  assert (Hc : forall dy dx w u u', cell dy dx w u = Some u' ->
                 length u = length B -> length u' = length B).
  { intros dy' dx' w u u' Eu Hu. unfold cell in Eu.
    destruct (negb (w =? 0) && (0 <=? y P + Z.of_nat dy')); [|injection Eu as <-; done].
    apply write_cell_length in Eu. congruence. }
  assert (Hr : forall k r t t', (fun dy row ng => forEach (cell dy) row ng) k r t = Some t' ->
                 length t = length B -> length t' = length B).
  { intros k r t t' Et Ht. cbn beta in Et. unfold forEach in Et.
    exact (forEach_from_inv _ (fun ng => length ng = length B) _ _ _ _ (Hc k) Et Ht). }
  unfold merge, forEach in E. fold cell in E.
  destruct (forEach_from_all _ (fun t => length t = length B) _ _ _ _ Hr eq_refl E dy row Hrow)
    as (t & t' & Ht & Et).
  cbn beta in Et. unfold forEach in Et.
  destruct (forEach_from_all _ (fun u => length u = length B) _ _ _ _ (Hc (0 + dy)%nat) Ht Et dx v Hv)
    as (u & u' & Hu & Eu).
  unfold cell in Eu.
  assert (negb (v =? 0) && (0 <=? y P + Z.of_nat (0 + dy)) = true) as Hb.
  { apply andb_true_iff. split; [apply negb_true_iff, Z.eqb_neq; done|apply Z.leb_le; unfold ROWS in *; lia]. }
  rewrite Hb in Eu. unfold write_cell in Eu.
  rewrite (lookup_ge_None_2 u) in Eu; [discriminate|]. unfold ROWS in *. lia.
Qed.

Lemma merge_some (g : board) (p : Piece) :
  board_wf g -> piece_in_bounds p -> exists g', merge g p = Some g'.
Proof.
  intros HB HP. unfold merge, forEach.
  destruct (forEach_from_ok (fun dy row ng =>
      forEach (fun dx v ng =>
        if negb (v =? 0) && (0 <=? y p + Z.of_nat dy)
        then write_cell (y p + Z.of_nat dy) (x p + Z.of_nat dx) (colorIdx p + 1) ng
        else Some ng) row ng)
    (fun dy ng => MInv g p (fun a _ => (a < dy)%nat) ng)
              (shape p) 0 g) as (g' & E & _).
  - split; [done|]. intros r c _ _. split; [|done]. intros (? & ? & ? & _). lia.
  - intros k row s Hk Hs. simpl in *. exact (merge_row_step g p HP k row s Hk Hs).
  - exists g'. exact E.
Qed.


(** Claim C2 (counterexample): the O piece one row below its resting
    place has its bottom row at board row 20; [ng[20]] is [undefined] and
    the assignment throws instead of returning a board. *)
Lemma merge_below_board_throws :
  merge emptyGrid (with_y O_spawned 19) = None.
Proof. vm_compute. reflexivity. Qed.

(** Claim C2 (as amended): for a ROWS x COLS board [B] and a piece [P]
    whose occupied cells with a row [>= 0] lie inside the board (as every
    piece that does not collide with [B]), [merge(B, P)] returns a new
    ROWS x COLS board equal to [B] except that every cell covered by an
    occupied piece cell with [y+dy >= 0] holds [P.colorIdx + 1]; piece
    cells with a negative row are written nowhere.  For every piece with
    an occupied cell at or past the bottom row, [merge(B, P)] throws. *)
Theorem merge_spec (B : board) (P : Piece) (HB : board_wf B) :
  (piece_in_bounds P ->
   exists B', merge B P = Some B' /\ board_wf B' /\
    forall r c : nat, (r < 20)%nat -> (c < 10)%nat ->
      (covers P r c -> B' !! r ≫= (fun row => row !! c) = Some (colorIdx P + 1)) /\
      (~ covers P r c -> B' !! r ≫= (fun row => row !! c) = B !! r ≫= (fun row => row !! c))) /\
  (forall dy dx, occupied P dy dx -> ROWS <= y P + Z.of_nat dy -> merge B P = None).
Proof.
  split; [intros HP|intros dy dx Hocc Hy; exact (merge_past_bottom B P dy dx (proj1 HB) Hocc Hy)].
  unfold merge, forEach.
  destruct (forEach_from_ok (fun dy row ng =>
      forEach (fun dx v ng =>
        if negb (v =? 0) && (0 <=? y P + Z.of_nat dy)
        then write_cell (y P + Z.of_nat dy) (x P + Z.of_nat dx) (colorIdx P + 1) ng
        else Some ng) row ng)
    (fun dy ng => MInv B P (fun a _ => (a < dy)%nat) ng)
              (shape P) 0 B) as (B' & E & HI).
  - split; [done|]. intros r c _ _. split; [|done]. intros (? & ? & ? & _). lia.
  - intros k row s Hk Hs. simpl in *. exact (merge_row_step B P HP k row s Hk Hs).
  - exists B'. split; [exact E|].
    apply (MInv_ext B P _ (fun _ _ => True)) in HI as [Hwf Hv].
    + split; [exact Hwf|]. intros r c Hr Hc. destruct (Hv r c Hr Hc) as [H1 H2]. split.
      * intros (dy & dx & Hh). apply H1. exists dy, dx. split; [done|exact Hh].
      * intros Hn. apply H2. intros (dy & dx & _ & Hh). apply Hn. exists dy, dx. exact Hh.
    + intros r c a b ((row & v & Hrow & _) & _). simpl. split; [done|].
      intros _. apply lookup_lt_Some in Hrow. lia.
Qed.

(** Witness of C2: the O piece resting on the floor of the empty board is
    merged; one row lower, merge throws. *)
Lemma merge_spec_witness :
  board_wf emptyGrid /\ piece_in_bounds (with_y O_spawned 18) /\
  (exists B', merge emptyGrid (with_y O_spawned 18) = Some B' /\ board_wf B') /\
  merge emptyGrid (with_y O_spawned 19) = None.
Proof.
  assert (HB : board_wf emptyGrid).
  { split; [reflexivity|]. vm_compute. repeat constructor. }
  assert (HP : piece_in_bounds (with_y O_spawned 18)).
  { intros dy dx (row & v & Hrow & Hv & _) _.
    destruct dy as [|[|dy]]; simpl in Hrow; injection Hrow as <- || discriminate;
    (destruct dx as [|[|dx]]; simpl in Hv; [| |discriminate]); unfold ROWS, COLS; simpl; lia. }
  split; [exact HB|]. split; [exact HP|]. split.
  - destruct (proj1 (merge_spec emptyGrid (with_y O_spawned 18) HB) HP) as (B' & E & Hwf & _).
    exists B'. split; [exact E|exact Hwf].
  - apply (proj2 (merge_spec emptyGrid (with_y O_spawned 19) HB) 1%nat 0%nat).
    + exists [1;1], 1. done.
    + unfold ROWS. simpl. lia.
Defined.

(** ** Rotation *)

Lemma for_loop_ok {St} (body : nat -> St -> option St) (Inv : nat -> St -> Prop) i n s :
  Inv i s ->
  (forall k s, (i <= k < i + n)%nat -> Inv k s -> exists s', body k s = Some s' /\ Inv (S k) s') ->
  exists s', for_loop body i n s = Some s' /\ Inv (i + n)%nat s'.
Proof.
  revert i s; induction n as [|n IH]; intros i s H0 Hstep; simpl.
  - exists s. rewrite Nat.add_0_r. done.
  - destruct (Hstep i s) as (s1 & E1 & I1); [lia|done|]. rewrite E1. simpl.
    destruct (IH (S i) s1 I1) as (s2 & E2 & I2).
    { intros k s' Hk Hs'. apply Hstep; [lia|done]. }
    exists s2. split; [done|]. replace (i + S n)%nat with (S i + n)%nat by lia. done.
Qed.

Lemma mapM_column (m : list (list Z)) (i : nat) :
  Forall (fun r => (i < length r)%nat) m ->
  exists col, mapM (fun r => r !! i) m = Some col /\ length col = length m /\
    forall a, col !! a = m !! a ≫= (fun r => r !! i).
Proof.
  induction m as [|r m IH]; intros Hm; simpl.
  - exists []. done.
  - apply Forall_cons in Hm as [Hr Hm]. destruct (IH Hm) as (col & E & Hl & Hc).
    destruct (lookup_lt_is_Some_2 r i Hr) as [v Hv]. rewrite Hv, E. simpl.
    exists (v :: col). split; [done|]. split; [simpl; lia|].
    intros [|a]; simpl; [done|apply Hc].
Qed.

Lemma mapM_seq {B} (f : nat -> option B) (s n : nat) :
  (forall i, (i < n)%nat -> exists b, f (s + i)%nat = Some b) ->
  exists k, mapM f (seq s n) = Some k /\ length k = n /\
    forall i b, k !! i = Some b -> f (s + i)%nat = Some b.
Proof.
  revert s; induction n as [|n IH]; intros s Hf; simpl.
  - exists []. split; [done|]. split; [done|]. done.
  - destruct (Hf 0%nat) as [b Hb]; [lia|]. rewrite Nat.add_0_r in Hb. rewrite Hb. simpl.
    destruct (IH (S s)) as (k & E & Hl & Hk).
    { intros i Hi. replace (S s + i)%nat with (s + S i)%nat by lia. apply Hf. lia. }
    rewrite E. simpl. exists (b :: k). split; [done|]. split; [simpl; lia|].
    intros [|i] b' Hi; simpl in Hi.
    + injection Hi as <-. rewrite Nat.add_0_r. done.
    + replace (s + S i)%nat with (S s + i)%nat by lia. apply Hk. done.
Qed.

Section Rotate.
Variables (m : list (list Z)) (R C : nat).
Hypothesis (HR : length m = R) (HC : Forall (fun r => length r = C) m).

Lemma shape_cell i j : (i < R)%nat -> (j < C)%nat ->
  exists v, m !! i ≫= (fun row => row !! j) = Some v.
Proof.
  intros Hi Hj. destruct (lookup_lt_is_Some_2 m i) as [row Hrow]; [lia|].
  rewrite Hrow. simpl. eapply Forall_lookup_1 in HC; [|exact Hrow].
  apply lookup_lt_is_Some_2. lia.
Qed.

Lemma rotate_app_ok : (0 < R)%nat -> exists m', rotate_app m = Some m' /\ rotated_ok m m' R C.
Proof.
  intros HR0.
  assert (Hm : exists r0 rest, m = r0 :: rest).
  { destruct m as [|r0 rest]; [simpl in HR; lia|eauto]. }
  destruct Hm as (r0 & rest & Em).
  assert (rotate_app m = mapM (fun i => reverse <$> mapM (fun r => r !! i) m) (seq 0 (length r0)))
    as -> by (rewrite Em; reflexivity).
  assert (Hr0 : length r0 = C).
  { rewrite Em in HC. apply Forall_cons in HC as [H _]. exact H. }
  destruct (mapM_seq (fun i => reverse <$> mapM (fun r => r !! i) m) 0 (length r0))
    as (k & E & Hl & Hk).
  { intros i Hi. simpl. destruct (mapM_column m i) as (col & Ec & _).
    - eapply Forall_impl; [exact HC|]. intros r Hr. simpl in Hr. lia.
    - rewrite Ec. eexists. done. }
  rewrite E. eexists. split; [reflexivity|]. split; [lia|]. split.
  - apply Forall_lookup. intros j b Hb.
    pose proof (lookup_lt_Some _ _ _ Hb) as Hj. apply Hk in Hb. simpl in Hb.
    destruct (mapM_column m j) as (col & Ec & Hlc & _).
    { eapply Forall_impl; [exact HC|]. intros r Hr. simpl in Hr. lia. }
    rewrite Ec in Hb. simpl in Hb. injection Hb as <-. rewrite length_reverse. lia.
  - intros i j Hi Hj.
    destruct (lookup_lt_is_Some_2 k j) as [b Hb]; [lia|].
    pose proof (Hk j b Hb) as Hf. simpl in Hf.
    destruct (mapM_column m j) as (col & Ec & Hlc & Hcol).
    { eapply Forall_impl; [exact HC|]. intros r Hr. simpl in Hr. lia. }
    rewrite Ec in Hf. simpl in Hf. injection Hf as <-.
    rewrite Hb. simpl. rewrite reverse_lookup by lia.
    rewrite Hlc, HR. replace (R - S (R - 1 - i))%nat with i by lia. apply Hcol.
Qed.

(** The matrix [rotated] holds [m[R-1-k][j]] at the cells [(j, k)] of
    [P] already written and [0] elsewhere. *)
Definition RInv (P : nat -> nat -> Prop) (acc : list (list Z)) : Prop :=
  length acc = C /\ Forall (fun row => length row = R) acc /\
  forall j k : nat, (j < C)%nat -> (k < R)%nat ->
    (P j k -> acc !! j ≫= (fun row => row !! k) = m !! (R - 1 - k)%nat ≫= (fun row => row !! j)) /\
    (~ P j k -> acc !! j ≫= (fun row => row !! k) = Some 0).

Lemma RInv_ext (P1 P2 : nat -> nat -> Prop) acc :
  (forall j k, (j < C)%nat -> (k < R)%nat -> (P1 j k <-> P2 j k)) ->
  RInv P1 acc -> RInv P2 acc.
Proof.
  intros Heq (Hl & Hf & Hv). split; [done|]. split; [done|].
  intros j k Hj Hk. destruct (Hv j k Hj Hk) as [H1 H2].
  specialize (Heq j k Hj Hk). split; intros HP; [apply H1|apply H2]; tauto.
Qed.

Lemma rotate_inner_step i j0 acc :
  (i < R)%nat -> (j0 < C)%nat ->
  RInv (fun j k => (R - 1 - k < i)%nat \/ ((R - 1 - k)%nat = i /\ (j < j0)%nat)) acc ->
  exists acc',
    (v ← m !! i ≫= (fun r => r !! j0);
     Some (alter (fun row => <[(R - 1 - i)%nat := v]> row) j0 acc)) = Some acc' /\
    RInv (fun j k => (R - 1 - k < i)%nat \/ ((R - 1 - k)%nat = i /\ (j < S j0)%nat)) acc'.
Proof.
  intros Hi Hj0 (Hl & Hf & Hv).
  destruct (shape_cell i j0 Hi Hj0) as [v Ev]. rewrite Ev. simpl.
  eexists. split; [reflexivity|].
  destruct (lookup_lt_is_Some_2 acc j0) as [row Hrow]; [lia|].
  assert (Hrl : length row = R) by (eapply Forall_lookup_1 in Hf; [exact Hf|exact Hrow]).
  split; [rewrite length_alter; done|]. split.
  - apply Forall_alter; [done|]. intros x _ Hx. rewrite length_insert. done.
  - intros j k Hj Hk. destruct (Hv j k Hj Hk) as [H1 H2].
    destruct (decide (j = j0)) as [->|Hne].
    + rewrite list_lookup_alter_eq, Hrow. simpl. rewrite Hrow in H1, H2. simpl in H1, H2.
      destruct (decide (k = (R - 1 - i)%nat)) as [->|Hk'].
      * rewrite list_lookup_insert_eq by lia.
        replace (R - 1 - (R - 1 - i))%nat with i by lia. rewrite Ev.
        split; [done|]. intros Hn. exfalso. apply Hn. right. split; lia.
      * rewrite list_lookup_insert_ne by lia.
        split; intros HP; [apply H1|apply H2]; [|intros HP'; apply HP]; lia.
    + rewrite list_lookup_alter_ne by done.
      split; intros HP; [apply H1|apply H2]; [|intros HP'; apply HP]; lia.
Qed.

Lemma rotate_loop_ok : (0 < R)%nat -> exists m', rotate_loop m = Some m' /\ rotated_ok m m' R C.
Proof.
  intros HR0.
  assert (Hm : exists r0 rest, m = r0 :: rest).
  { destruct m as [|r0 rest]; [simpl in HR; lia|eauto]. }
  destruct Hm as (r0 & rest & Em).
  assert (Hr0 : length r0 = C).
  { rewrite Em in HC. apply Forall_cons in HC as [H _]. exact H. }
  assert (rotate_loop m =
    for_loop (fun i acc =>
      for_loop (fun j acc =>
        v ← m !! i ≫= (fun r => r !! j);
        Some (alter (fun row => <[(R - 1 - i)%nat := v]> row) j acc))
        0 C acc)
      0 R (replicate C (replicate R 0))) as ->.
  { rewrite <-HR, <-Hr0. rewrite Em. reflexivity. }
  destruct (for_loop_ok (fun i acc =>
      for_loop (fun j acc =>
        v ← m !! i ≫= (fun r => r !! j);
        Some (alter (fun row => <[(R - 1 - i)%nat := v]> row) j acc))
        0 C acc)
    (fun i acc => RInv (fun _ k => (R - 1 - k < i)%nat) acc) 0 R
              (replicate C (replicate R 0))) as (m' & E & HI).
  - split; [apply length_replicate|]. split.
    + apply Forall_replicate. apply length_replicate.
    + intros j k Hj Hk. split; [lia|]. intros _.
      rewrite lookup_replicate_2 by done. simpl. rewrite lookup_replicate_2 by done. done.
  - intros i acc Hi HI.
    destruct (for_loop_ok (fun j acc =>
        v ← m !! i ≫= (fun r => r !! j);
        Some (alter (fun row => <[(R - 1 - i)%nat := v]> row) j acc))
      (fun j0 acc => RInv (fun j k => (R - 1 - k < i)%nat \/ ((R - 1 - k)%nat = i /\ (j < j0)%nat)) acc)
      0 C acc) as (acc' & E' & HI').
    + revert HI. apply RInv_ext. intros j k _ _. lia.
    + intros j0 s Hj0 Hs. apply rotate_inner_step; [lia|lia|done].
    + exists acc'. split; [exact E'|]. revert HI'. apply RInv_ext. intros j k Hj Hk. lia.
  - exists m'. split; [exact E|]. destruct HI as (Hl & Hf & Hv). split; [done|]. split; [done|].
    intros i j Hi Hj. destruct (Hv j (R - 1 - i)%nat Hj ltac:(lia)) as [H1 _].
    rewrite H1 by lia. replace (R - 1 - (R - 1 - i))%nat with i by lia. done.
Qed.

End Rotate.

(** Claim C4: for every non-empty [R x C] matrix, both implementations
    of [rotate] ([src/App.tsx] and [part_000]) return the [C x R] matrix
    [rotated] with [rotated[j][R-1-i] = shape[i][j]] for all [i < R],
    [j < C]: the clockwise quarter turn. *)
Theorem rotate_clockwise (shp : list (list Z)) (R C : nat)
    (HR : length shp = R) (HR0 : (0 < R)%nat) (HC : Forall (fun r => length r = C) shp) :
  (exists m', rotate_app shp = Some m' /\ rotated_ok shp m' R C) /\
  (exists m', rotate_loop shp = Some m' /\ rotated_ok shp m' R C).
Proof.
  split; [apply rotate_app_ok|apply rotate_loop_ok]; done.
Qed.

(** Witness of C4: the T piece. *)
Lemma rotate_clockwise_witness :
  rotate_app [[0;1;0];[1;1;1]] = Some [[1;0];[1;1];[1;0]] /\
  exists m', rotate_loop [[0;1;0];[1;1;1]] = Some m' /\ rotated_ok [[0;1;0];[1;1;1]] m' 2 3.
Proof.
  split; [reflexivity|].
  apply (rotate_clockwise [[0;1;0];[1;1;1]] 2 3); [reflexivity|lia|repeat constructor].
Defined.

(** ** Descent loops *)

Lemma with_y_y (p : Piece) : with_y p (y p) = p.
Proof. destruct p. reflexivity. Qed.

Lemma with_y_twice (p : Piece) a b : with_y (with_y p a) b = with_y p b.
Proof. reflexivity. Qed.

Lemma occupied_with_y (p : Piece) v dy dx : occupied (with_y p v) dy dx <-> occupied p dy dx.
Proof. reflexivity. Qed.

(** An occupied cell at or past the bottom row, or outside the columns,
    makes the piece collide. *)
Lemma occupied_out_collides (g : board) (p : Piece) dy dx :
  occupied p dy dx ->
  (ROWS <= y p + Z.of_nat dy \/ x p + Z.of_nat dx < 0 \/ COLS <= x p + Z.of_nat dx) ->
  collides g p = true.
Proof.
  intros (row & v & Hrow & Hv & Hv0) Hout. unfold collides. apply some_true.
  exists dy, row. split; [done|]. apply some_true. exists dx, v. split; [done|].
  unfold cell_hits. apply andb_true_iff. split; [apply negb_true_iff, Z.eqb_neq; done|].
  repeat rewrite orb_true_iff.
  destruct Hout as [H|[H|H]]; [left; left; left; apply Z.leb_le|left; left; right; apply Z.ltb_lt
    |left; right; apply Z.leb_le]; lia.
Qed.

Lemma no_occupied_no_collision (g : board) (p : Piece) :
  (forall dy dx, ~ occupied p dy dx) -> collides g p = false.
Proof.
  intros Hno. apply not_true_iff_false. unfold collides. rewrite some_true.
  intros (dy & row & Hrow & Hin). apply some_true in Hin as (dx & v & Hv & Hc).
  apply (Hno dy dx). exists row, v. split; [done|]. split; [done|].
  unfold cell_hits in Hc. apply andb_true_iff in Hc as [Hc _].
  apply negb_true_iff, Z.eqb_neq in Hc. done.
Qed.

Lemma hardDrop_loop_drop_loop fuel (g : board) (p : Piece) d :
  hardDrop_loop fuel g p d = (fun p' => (p', d + (y p' - y p))) <$> drop_loop fuel g p.
Proof.
  revert p d; induction fuel as [|f IH]; intros p d; simpl; [done|].
  destruct (collides g (with_y p (y p + 1))); simpl.
  - f_equal. f_equal. lia.
  - rewrite IH. destruct (drop_loop f g (with_y p (y p + 1))) as [p'|]; simpl; [|done].
    do 2 f_equal. lia.
Qed.

Lemma drop_loop_stops (g : board) (p : Piece) dy dx (n : nat) :
  occupied p dy dx -> (Z.to_nat (ROWS - y p) <= n)%nat ->
  exists p', drop_loop (S n) g p = Some p' /\
    p' = with_y p (y p') /\ y p <= y p' /\
    collides g (with_y p' (y p' + 1)) = true /\
    (forall z, y p <= z < y p' -> collides g (with_y p (z + 1)) = false) /\
    (y p < y p' -> collides g p' = false).
Proof.
  revert p; induction n as [|n IH]; intros p Hocc Hn;
    cbn [drop_loop]; destruct (collides g (with_y p (y p + 1))) eqn:Ec.
  - exists p. rewrite with_y_y. repeat split; try done; lia.
  - exfalso. assert (collides g (with_y p (y p + 1)) = true) as Hc; [|congruence].
    apply (occupied_out_collides _ _ dy dx); [done|]. simpl. unfold ROWS in *. lia.
  - exists p. rewrite with_y_y. repeat split; try done; lia.
  - destruct (IH (with_y p (y p + 1))) as (p' & E & Hp' & Hle & Hcol & Hfirst & Hfree).
    + done.
    + simpl. lia.
    + exists p'. cbn [drop_loop] in E. rewrite E. split; [done|].
      simpl in Hp', Hle, Hfirst, Hfree. rewrite with_y_twice in Hp'.
      split; [done|]. split; [lia|]. split; [done|]. split.
      * intros z Hz. destruct (decide (z = y p)) as [->|Hz']; [done|].
        rewrite <-(with_y_twice p (y p + 1) (z + 1)). apply Hfirst. lia.
      * intros _. destruct (decide (y p' = y p + 1)) as [Heq|Hne].
        -- rewrite Hp', Heq. done.
        -- apply Hfree. lia.
Qed.

Lemma drop_loop_diverges (g : board) (p : Piece) fuel :
  (forall dy dx, ~ occupied p dy dx) -> drop_loop fuel g p = None.
Proof.
  revert p; induction fuel as [|f IH]; intros p Hno; simpl; [done|].
  rewrite no_occupied_no_collision by done. apply IH. done.
Qed.

(** Claim C10 (counterexample): on a board whose cells are all occupied,
    the O piece at its spawn position collides, and the ghost loop stops
    at once on that colliding position. *)
Lemma descent_stops_on_colliding_start :
  collides fullBoard O_spawned = true /\
  getGhostPiece (loop_fuel O_spawned) O_spawned fullBoard = Some O_spawned.
Proof. vm_compute. split; reflexivity. Qed.

(** Claim C10 (as amended): on a ROWS-row board, for a piece with an
    occupied cell, the descent loop of [getGhostPiece] and of [hardDrop]
    terminates (within
    [ROWS - y + 1] iterations) at the first [y' >= y] whose one-row-lower
    position collides; [hardDrop] reports [y' - y] rows dropped; the final
    position does not collide when the start does not or when at least one
    step was taken; a colliding start from which no step is taken is
    returned as it is.  A piece with no occupied cell never leaves the loop. *)
Theorem descent_loops (g : board) (p : Piece) (HB : length g = Z.to_nat ROWS) :
  ((exists dy dx, occupied p dy dx) ->
    exists p',
      getGhostPiece (loop_fuel p) p g = Some p' /\
      hardDrop_loop (loop_fuel p) g p 0 = Some (p', y p' - y p) /\
      p' = with_y p (y p') /\ y p <= y p' /\
      collides g (with_y p' (y p' + 1)) = true /\
      (forall z, y p <= z < y p' -> collides g (with_y p (z + 1)) = false) /\
      ((collides g p = false \/ y p < y p') -> collides g p' = false)) /\
  ((forall dy dx, ~ occupied p dy dx) ->
    forall fuel, getGhostPiece fuel p g = None /\ hardDrop_loop fuel g p 0 = None).
Proof.
  split.
  - intros (dy & dx & Hocc).
    destruct (drop_loop_stops g p dy dx (Z.to_nat (ROWS - y p)) Hocc (le_n _))
      as (p' & E & Hp' & Hle & Hcol & Hfirst & Hfree).
    exists p'. unfold getGhostPiece, loop_fuel. rewrite hardDrop_loop_drop_loop, E.
    split; [done|]. split; [done|]. repeat (split; [done|]).
    intros [Hc|Hlt]; [|apply Hfree; done].
    destruct (decide (y p' = y p)) as [Heq|]; [|apply Hfree; lia].
    rewrite Hp', Heq, with_y_y. done.
  - intros Hno fuel. unfold getGhostPiece. rewrite hardDrop_loop_drop_loop.
    rewrite drop_loop_diverges by done. done.
Qed.

(** Witness of C10: the O piece on the empty board lands at [y = 18]; an
    all-zero shape never stops. *)
Lemma descent_loops_witness :
  length emptyGrid = Z.to_nat ROWS /\
  getGhostPiece (loop_fuel O_spawned) O_spawned emptyGrid = Some (with_y O_spawned 18) /\
  getGhostPiece 100 (mkPiece [[0;0]] 4 0 0) emptyGrid = None.
Proof.
  split; [reflexivity|]. split.
  - destruct (proj1 (descent_loops emptyGrid O_spawned eq_refl)) as (p' & E & _).
    + exists 0%nat, 0%nat, [1;1], 1. done.
    + rewrite E. vm_compute in E. rewrite <-E. reflexivity.
  - apply (proj2 (descent_loops emptyGrid (mkPiece [[0;0]] 4 0 0) eq_refl)).
    intros dy dx (row & v & Hrow & Hv & Hv0).
    destruct dy as [|dy]; simpl in Hrow; [injection Hrow as <-|discriminate].
    destruct dx as [|[|dx]]; simpl in Hv; try discriminate; injection Hv as <-; done.
Defined.

(** ** The 7-bag *)

Lemma length_swap i j (b : list Z) : length (swap i j b) = length b.
Proof. unfold swap. rewrite !length_insert. done. Qed.

Lemma swap_perm i j (b : list Z) :
  (i < length b)%nat -> (j < length b)%nat -> swap i j b ≡ₚ b.
Proof.
  intros Hi Hj. unfold swap.
  destruct (lookup_lt_is_Some_2 b i Hi) as [bi Ebi].
  destruct (lookup_lt_is_Some_2 b j Hj) as [bj Ebj].
  rewrite (list_lookup_total_correct _ _ _ Ebi), (list_lookup_total_correct _ _ _ Ebj).
  apply Permutation_insert_swap; done.
Qed.

Lemma fisher_yates_perm i us (b : list Z) :
  (i < length b)%nat -> fisher_yates i us b ≡ₚ b /\ length (fisher_yates i us b) = length b.
Proof.
  revert us b; induction i as [|i IH]; intros us b Hi; simpl; [done|].
  assert (Hj : (rand_index us (S i) < length b)%nat).
  { unfold rand_index. pose proof (Nat.mod_upper_bound (default 0%nat (head us)) (S i + 1)). lia. }
  destruct (IH (tail us) (swap (S i) (rand_index us (S i)) b)) as [Hp Hl];
    [rewrite length_swap; lia|].
  rewrite Hl, length_swap. split; [|done].
  rewrite Hp. apply swap_perm; lia.
Qed.

Lemma refillBag_perm us : refillBag us ≡ₚ bag_init /\ length (refillBag us) = 7%nat.
Proof. apply fisher_yates_perm. simpl. lia. Qed.

Lemma bag_next_snoc us (b : list Z) c : bag_next us (b ++ [c]) = Some (c, b).
Proof.
  unfold bag_next.
  assert (E : exists a l, b ++ [c] = a :: l) by (destruct b; simpl; eauto).
  destruct E as (a & l & E). rewrite E. cbn zeta iota. rewrite <-E, last_snoc. simpl.
  rewrite removelast_last. done.
Qed.

Lemma bag_draws_pop_all (uss : list (list nat)) (b : list Z) :
  length b = length uss -> bag_draws uss b = Some (reverse b, []).
Proof.
  revert b; induction uss as [|us uss IH]; intros b Hl.
  - destruct b; [done|discriminate].
  - destruct (exists_last (l := b)) as (b' & c & ->); [intros ->; discriminate|].
    simpl. rewrite bag_next_snoc. simpl. rewrite IH.
    + simpl. rewrite reverse_snoc. done.
    + rewrite length_app in Hl. simpl in Hl. lia.
Qed.

Lemma bag_draws_from_empty us (uss : list (list nat)) :
  length (refillBag us) = S (length uss) ->
  bag_draws (us :: uss) [] = Some (reverse (refillBag us), []).
Proof.
  intros Hl.
  destruct (exists_last (l := refillBag us)) as (b' & c & Eb); [intros E; rewrite E in Hl; discriminate|].
  assert (E1 : bag_next us [] = Some (c, b')).
  { cbv beta iota zeta delta [bag_next]. rewrite Eb, last_snoc. cbn -[refillBag].
    rewrite removelast_last. done. }
  change (bag_draws (us :: uss) [])
    with ('(c, bag1) ← bag_next us []; '(cs, bag2) ← bag_draws uss bag1; Some (c :: cs, bag2)).
  rewrite E1. cbn [mbind option_bind].
  rewrite bag_draws_pop_all.
  - cbn [mbind option_bind]. rewrite Eb, reverse_snoc. done.
  - rewrite Eb, length_app in Hl. simpl in Hl. lia.
Qed.

Lemma removelast_NoDup (b : list Z) : NoDup b -> NoDup (removelast b).
Proof.
  intros Hb. destruct (decide (b = [])) as [->|Hne]; [done|].
  destruct (exists_last Hne) as (b' & c & ->). rewrite removelast_last.
  apply NoDup_app in Hb as [Hb _]. done.
Qed.

(** Claim C8: with each shuffle any outcome of the Fisher-Yates draws,
    every refill holds the 7 type indices once each; 7 consecutive draws
    from a refill boundary (a fresh [PieceBag] or an exhausted pool) give
    the 7 types exactly once each and leave the pool empty; and no pool the
    bag can reach holds a duplicate. *)
Theorem bag_cycle (u0 us1 us2 us3 us4 us5 us6 us7 : list nat) (b0 : list Z)
    (Hb0 : b0 = [] \/ b0 = refillBag u0) :
  refillBag u0 ≡ₚ [0; 1; 2; 3; 4; 5; 6] /\
  (exists drawn, bag_draws [us1; us2; us3; us4; us5; us6; us7] b0 = Some (drawn, []) /\
     drawn ≡ₚ [0; 1; 2; 3; 4; 5; 6]) /\
  (forall b, bag_reachable b -> NoDup b).
Proof.
  split; [apply refillBag_perm|]. split.
  - destruct Hb0 as [->| ->].
    + destruct (refillBag_perm us1) as [Hp Hl]. exists (reverse (refillBag us1)).
      rewrite bag_draws_from_empty by (rewrite Hl; done). split; [done|].
      rewrite reverse_Permutation. done.
    + destruct (refillBag_perm u0) as [Hp Hl]. exists (reverse (refillBag u0)).
      rewrite bag_draws_pop_all by (rewrite Hl; done). split; [done|].
      rewrite reverse_Permutation. done.
  - induction 1 as [us|us bag c bag' Hr IH Hn].
    + rewrite (proj1 (refillBag_perm us)). unfold bag_init. apply (bool_decide_unpack _). vm_compute. reflexivity.
    + unfold bag_next in Hn. destruct bag as [|c0 bag0].
      * destruct (last (refillBag us)); [|discriminate]. injection Hn as _ <-.
        apply removelast_NoDup. rewrite (proj1 (refillBag_perm us)).
        unfold bag_init. apply (bool_decide_unpack _). vm_compute. reflexivity.
      * destruct (last (c0 :: bag0)); [|discriminate]. injection Hn as _ <-.
        apply (removelast_NoDup (c0 :: bag0)). done.
Qed.

(** Witness of C8: the first cycle of a fresh bag with all draws [0]. *)
Lemma bag_cycle_witness :
  bag_draws [[]; []; []; []; []; []; []] (refillBag []) = Some ([0; 6; 5; 4; 3; 2; 1], []) /\
  exists drawn, bag_draws [[]; []; []; []; []; []; []] (refillBag []) = Some (drawn, []) /\
     drawn ≡ₚ [0; 1; 2; 3; 4; 5; 6].
Proof.
  split; [vm_compute; reflexivity|].
  apply (bag_cycle [] [] [] [] [] [] [] [] (refillBag [])). right. reflexivity.
Defined.

(** ** Soft drop and the lock path *)

Lemma simple_set_piece_same (s : Simple.State) : Simple.set_piece s (Simple.piece s) = s.
Proof. destruct s; reflexivity. Qed.

Lemma simple_onKey_rejected k s : simple_rejected s k -> Simple.onKey k s = Some s.
Proof.
  unfold simple_rejected, Simple.onKey.
  destruct (negb (Simple.started s) || Simple.over s); [done|].
  destruct k; simpl; try done.
  - intros H. rewrite H, simple_set_piece_same. done.
  - intros H. rewrite H, simple_set_piece_same. done.
  - intros H. rewrite H, simple_set_piece_same. done.
  - intros (rs & Er & H). rewrite Er. simpl. rewrite H, simple_set_piece_same. done.
Qed.

(** Claim C5 (counterexample): in the simple ruleset a blocked soft drop is
    a plain rejection, while the gravity tick in the same state locks the
    piece into the board. *)
Lemma simple_soft_drop_blocked_no_lock :
  collides (Simple.grid simple_resting) (with_y (Simple.piece simple_resting) 19) = true /\
  Simple.onKey KDown simple_resting = Some simple_resting /\
  forall u, option_map Simple.grid (Simple.gravity u simple_resting) <> Some emptyGrid.
Proof.
  split; [vm_compute; reflexivity|]. split; [vm_compute; reflexivity|].
  intros u. vm_compute. congruence.
Qed.

(** Claim C5 (amended): in the richer ruleset a soft drop whose lower
    position collides takes the lock path of the gravity tick
    ([lockPiece]); in the simple ruleset it is a plain rejection leaving
    the session unchanged, and the gravity tick, when blocked, moves the
    session to Over with the board untouched if the piece is at row 0 and
    otherwise locks it ([merge], [clearLines], score, level, next piece). *)
Theorem soft_drop_lock_path (us : list nat) (u : nat) (r : Rich.State) (p : Piece)
    (s : Simple.State)
    (Hr : rich_running r) (Hp : Rich.piece r = Some p)
    (Hrb : collides (Rich.grid r) (with_y p (y p + 1)) = true)
    (Hs : Simple.started s = true /\ Simple.over s = false /\ Simple.paused s = false)
    (Hsb : collides (Simple.grid s) (with_y (Simple.piece s) (y (Simple.piece s) + 1)) = true) :
  Rich.handleKeyDown us KDown r = Rich.lockPiece us r /\
  Rich.gravity us r = Rich.lockPiece us r /\
  Simple.onKey KDown s = Some s /\
  Simple.gravity u s =
    (if y (Simple.piece s) =? 0 then Some (Simple.set_over s true)
     else Simple.lock u s (Simple.piece s)) /\
  Simple.grid (Simple.set_over s true) = Simple.grid s.
Proof.
  destruct Hr as (Hr1 & Hr2 & Hr3). destruct Hs as (Hs1 & Hs2 & Hs3).
  split; [|split; [|split; [|split]]].
  - unfold Rich.handleKeyDown. rewrite Hr1, Hr2, Hr3, Hp. simpl. rewrite Hrb. done.
  - unfold Rich.gravity. rewrite Hr1, Hr2, Hr3, Hp. simpl. rewrite Hrb. done.
  - apply simple_onKey_rejected. exact Hsb.
  - unfold Simple.gravity. rewrite Hs1, Hs2, Hs3. simpl. rewrite Hsb. done.
  - done.
Qed.

(** Witness of C5: the O piece resting on the floor in both rulesets. *)
Lemma soft_drop_lock_path_witness :
  Rich.handleKeyDown [] KDown rich_resting = Rich.lockPiece [] rich_resting /\
  Simple.onKey KDown simple_resting = Some simple_resting.
Proof.
  destruct (soft_drop_lock_path [] 0 rich_resting (with_y O_spawned 18) simple_resting)
    as (H1 & _ & H3 & _).
  - split; [reflexivity|split; reflexivity].
  - reflexivity.
  - vm_compute. reflexivity.
  - split; [reflexivity|split; reflexivity].
  - vm_compute. reflexivity.
  - split; [exact H1|exact H3].
Defined.

(** ** Rejected intents *)

(** Claim C9: every rejected intent leaves the whole session unchanged: a
    colliding move, soft drop or rotation in the simple ruleset; a colliding
    move or rotation and a hold with the hold-used flag set in the richer
    one.  A hold from an empty held slot sets that flag, no intent other
    than a soft drop (the only one that can lock) clears it, and so a
    second hold before any lock changes nothing. *)
Theorem rejected_intents_unchanged (us : list nat) :
  (forall k s, simple_rejected s k -> Simple.onKey k s = Some s) /\
  (forall k s, rich_rejected s k -> Rich.handleKeyDown us k s = Some s) /\
  (forall s s', Rich.holdPieceAction us s = Some s' -> Rich.piece s <> None ->
     Rich.canHold s = true -> Rich.holdPiece s = None ->
     Rich.canHold s' = false /\ forall us', Rich.handleKeyDown us' KHold s' = Some s') /\
  (forall k t t', k <> KDown -> Rich.canHold t = false ->
     Rich.handleKeyDown us k t = Some t' -> Rich.canHold t' = false).
Proof.
  split; [exact simple_onKey_rejected|]. split; [|split].
  - intros k s Hk. unfold Rich.handleKeyDown.
    destruct (negb (Rich.started s) || Rich.over s || Rich.paused s); [done|].
    unfold rich_rejected in Hk. destruct (Rich.piece s) as [p|] eqn:Ep;
      destruct k; try contradiction.
    + unfold Rich.shift. rewrite Ep. change (x p + -1) with (x p - 1). rewrite Hk. done.
    + unfold Rich.shift. rewrite Ep. rewrite Hk. done.
    + destruct Hk as (rs & Er & Hc). unfold Rich.rotatePiece. rewrite Ep, Er. simpl.
      rewrite Hc. done.
    + unfold Rich.holdPieceAction. rewrite Ep, Hk. done.
    + unfold Rich.holdPieceAction. rewrite Ep. done.
  - intros s s' E Hp Hc Hh. unfold Rich.holdPieceAction in E.
    destruct (Rich.piece s) as [p|]; [|done]. rewrite Hc, Hh in E. simpl in E.
    destruct (centered_x (shape p)); [|discriminate]. simpl in E.
    destruct (Rich.bagNext us (Rich.bag s)) as [[d b']|]; [|discriminate]. simpl in E.
    injection E as <-. split; [done|]. intros us'. unfold Rich.handleKeyDown. simpl.
    destruct (negb (Rich.started s) || Rich.over s || Rich.paused s); [done|].
    unfold Rich.holdPieceAction. simpl. destruct (Rich.nextPieces s !! 0%nat); done.
  - intros k t t' Hk Hc E. unfold Rich.handleKeyDown in E.
    destruct (negb (Rich.started t) || Rich.over t || Rich.paused t);
      [injection E as <-; done|].
    destruct k; try congruence.
    + unfold Rich.shift in E. destruct (Rich.piece t); [|congruence].
      destruct (collides _ _); injection E as <-; done.
    + unfold Rich.shift in E. destruct (Rich.piece t); [|congruence].
      destruct (collides _ _); injection E as <-; done.
    + unfold Rich.hardDrop in E. destruct (Rich.piece t); [|congruence].
      destruct (hardDrop_loop _ _ _ _) as [[dp d]|]; simpl in E; [|discriminate].
      injection E as <-; done.
    + unfold Rich.rotatePiece in E. destruct (Rich.piece t); [|congruence].
      destruct (rotate_loop _); simpl in E; [|discriminate].
      destruct (negb _); injection E as <-; done.
    + unfold Rich.holdPieceAction in E. destruct (Rich.piece t); [|congruence].
      rewrite Hc in E. simpl in E. congruence.
    + injection E as <-; done.
Qed.

(** Witness of C9: a hold from an empty held slot, then a second hold. *)
Lemma rejected_intents_unchanged_witness :
  exists s', Rich.holdPieceAction [] rich_fresh = Some s' /\
    Rich.canHold s' = false /\ Rich.handleKeyDown [] KHold s' = Some s'.
Proof.
  destruct (Rich.holdPieceAction [] rich_fresh) as [s'|] eqn:E;
    [|vm_compute in E; discriminate].
  destruct (proj1 (proj2 (proj2 (rejected_intents_unchanged []))) rich_fresh s' E)
    as [H1 H2].
  - cbn. congruence.
  - reflexivity.
  - reflexivity.
  - exists s'. split; [reflexivity|]. split; [exact H1|exact (H2 [])].
Defined.

(** * Further properties of the code *)

(** ** Rotation round trips *)

Lemma matrix_ext (a b : list (list Z)) (R C : nat) :
  length a = R -> Forall (fun r => length r = C) a ->
  length b = R -> Forall (fun r => length r = C) b ->
  (forall i j, (i < R)%nat -> (j < C)%nat ->
     a !! i ≫= (fun r => r !! j) = b !! i ≫= (fun r => r !! j)) ->
  a = b.
Proof.
  intros Ha HCa Hb HCb H. apply list_eq. intros i.
  destruct (decide (i < R)%nat) as [Hi|Hi].
  - destruct (lookup_lt_is_Some_2 a i) as [ra Ea]; [lia|].
    destruct (lookup_lt_is_Some_2 b i) as [rb Eb]; [lia|].
    rewrite Ea, Eb. f_equal.
    pose proof (Forall_lookup_1 _ _ _ _ HCa Ea) as La.
    pose proof (Forall_lookup_1 _ _ _ _ HCb Eb) as Lb. simpl in La, Lb.
    apply list_eq. intros j. destruct (decide (j < C)%nat) as [Hj|Hj].
    + specialize (H i j Hi Hj). rewrite Ea, Eb in H. exact H.
    + rewrite !lookup_ge_None_2 by lia. done.
  - rewrite !lookup_ge_None_2 by lia. done.
Qed.

Lemma rotated_ok_unique (m a b : list (list Z)) (R C : nat) :
  rotated_ok m a R C -> rotated_ok m b R C -> a = b.
Proof.
  intros (La & Fa & Ha) (Lb & Fb & Hb). apply (matrix_ext a b C R); try done.
  intros j i Hj Hi.
  specialize (Ha (R - 1 - i)%nat j ltac:(lia) Hj). specialize (Hb (R - 1 - i)%nat j ltac:(lia) Hj).
  replace (R - 1 - (R - 1 - i))%nat with i in Ha, Hb by lia. congruence.
Qed.

Lemma rotated_ok_four (m m1 m2 m3 m4 : list (list Z)) (R C : nat) :
  length m = R -> Forall (fun r => length r = C) m ->
  rotated_ok m m1 R C -> rotated_ok m1 m2 C R -> rotated_ok m2 m3 R C -> rotated_ok m3 m4 C R ->
  m4 = m.
Proof.
  intros HR HC (L1 & F1 & H1) (L2 & F2 & H2) (L3 & F3 & H3) (L4 & F4 & H4).
  apply (matrix_ext m4 m R C); try done.
  intros a b Ha Hb.
  specialize (H4 (C - 1 - b)%nat a ltac:(lia) Ha).
  replace (C - 1 - (C - 1 - b))%nat with b in H4 by lia. rewrite H4.
  specialize (H3 (R - 1 - a)%nat (C - 1 - b)%nat ltac:(lia) ltac:(lia)).
  replace (R - 1 - (R - 1 - a))%nat with a in H3 by lia. rewrite H3.
  rewrite (H2 b (R - 1 - a)%nat Hb ltac:(lia)).
  apply H1; done.
Qed.

Lemma four_rotations (f : list (list Z) -> option (list (list Z)))
    (Hf : forall m R C, length m = R -> Forall (fun r => length r = C) m -> (0 < R)%nat ->
       exists m', f m = Some m' /\ rotated_ok m m' R C)
    (m : list (list Z)) (R C : nat) :
  length m = R -> Forall (fun r => length r = C) m -> (0 < R)%nat -> (0 < C)%nat ->
  (((f m ≫= f) ≫= f) ≫= f) = Some m.
Proof.
  intros HR HC HR0 HC0.
  destruct (Hf m R C HR HC HR0) as (m1 & E1 & R1).
  destruct R1 as (L1 & F1 & G1).
  destruct (Hf m1 C R L1 F1 HC0) as (m2 & E2 & R2).
  destruct R2 as (L2 & F2 & G2).
  destruct (Hf m2 R C L2 F2 HR0) as (m3 & E3 & R3).
  destruct R3 as (L3 & F3 & G3).
  destruct (Hf m3 C R L3 F3 HC0) as (m4 & E4 & R4).
  rewrite E1. simpl. rewrite E2. simpl. rewrite E3. simpl. rewrite E4. simpl. f_equal.
  apply (rotated_ok_four m m1 m2 m3 m4 R C); done.
Qed.

(** [rotate] of [src/App.tsx] and [rotate] of [part_000] compute the same
    matrix on every non-empty rectangular shape, four rotations by either
    give the shape back, and both throw on an empty shape. *)
Theorem rotate_round_trip (m : list (list Z)) (R C : nat)
    (HR : length m = R) (HC : Forall (fun r => length r = C) m)
    (HR0 : (0 < R)%nat) (HC0 : (0 < C)%nat) :
  rotate_app m = rotate_loop m /\
  (((rotate_app m ≫= rotate_app) ≫= rotate_app) ≫= rotate_app) = Some m /\
  (((rotate_loop m ≫= rotate_loop) ≫= rotate_loop) ≫= rotate_loop) = Some m /\
  rotate_app [] = None /\ rotate_loop [] = None.
Proof.
  split; [|split; [|split; [|split]]].
  - destruct (rotate_app_ok m R C HR HC HR0) as (a & Ea & Ra).
    destruct (rotate_loop_ok m R C HR HC HR0) as (b & Eb & Rb).
    rewrite Ea, Eb. f_equal. apply (rotated_ok_unique m a b R C); done.
  - apply (four_rotations rotate_app (fun m R C HR HC => rotate_app_ok m R C HR HC) m R C); done.
  - apply (four_rotations rotate_loop (fun m R C HR HC => rotate_loop_ok m R C HR HC) m R C); done.
  - done.
  - done.
Qed.

Lemma rotate_round_trip_witness :
  rotate_app [[0;0;1];[1;1;1]] = Some [[1;0];[1;0];[1;1]] /\
  rotate_loop [[0;0;1];[1;1;1]] = Some [[1;0];[1;0];[1;1]] /\
  rotate_app [[0;0;1];[1;1;1]] = rotate_loop [[0;0;1];[1;1;1]].
Proof.
  split; [vm_compute; reflexivity|]. split; [vm_compute; reflexivity|].
  apply (rotate_round_trip [[0;0;1];[1;1;1]] 2 3); [reflexivity|repeat constructor|lia|lia].
Defined.

(** ** The board after a lock *)


Lemma write_cell_ok r c v (ng ng' : board) :
  grid_ok ng -> 0 <= v <= 7 -> write_cell r c v ng = Some ng' -> grid_ok ng'.
Proof.
  unfold write_cell. intros ((HL & HF) & Hv) Hvr E.
  destruct (ng !! Z.to_nat r) as [row|] eqn:Er; [|discriminate].
  destruct (c <? 0); [injection E as <-; split; [split|]; done|].
  destruct (Z.of_nat (length row) <=? c); [discriminate|]. injection E as <-.
  split; [split|].
  - rewrite length_insert. done.
  - apply Forall_insert; [done|]. rewrite length_insert. exact (Forall_lookup_1 _ _ _ _ HF Er).
  - apply Forall_insert; [done|]. apply Forall_insert; [exact (Forall_lookup_1 _ _ _ _ Hv Er)|lia].
Qed.

Lemma merge_ok (g g' : board) (p : Piece) :
  grid_ok g -> 0 <= colorIdx p <= 6 -> merge g p = Some g' -> grid_ok g'.
Proof.
  unfold merge, forEach. intros Hg Hc E.
  eapply (forEach_from_inv _ grid_ok); [|exact E|exact Hg].
  intros k row t t' Et Ht. unfold forEach in Et.
  eapply (forEach_from_inv _ grid_ok); [|exact Et|exact Ht].
  intros k' v u u' Eu Hu. cbn beta in Eu.
  destruct (negb (v =? 0) && (0 <=? y p + Z.of_nat k)); [|injection Eu as <-; done].
  eapply write_cell_ok; [exact Hu| |exact Eu]; lia.
Qed.

Lemma emptyRow_has_zero : (0:Z) ∈ emptyRow.
Proof. apply elem_of_replicate. split; [done|]. unfold COLS. lia. Qed.

Lemma clearLines_ok (g : board) :
  grid_ok g -> grid_ok (clearLines g).1 /\ no_full_row (clearLines g).1.
Proof.
  intros ((HL & HF) & Hv). unfold clearLines. cbn [fst].
  rewrite has_zero_filter, unshift_empty_replicate.
  pose proof (length_filter_complement g) as Hs.
  assert (Hsub : forall r, r ∈ filter (fun r => 0 ∈ r) g -> r ∈ g /\ 0 ∈ r).
  { intros r Hr. apply list_elem_of_filter in Hr. tauto. }
  split; [split; [split|]|].
  - rewrite length_app, length_replicate. unfold ROWS in *. lia.
  - apply Forall_app. split.
    + apply Forall_replicate. unfold emptyRow. rewrite length_replicate. done.
    + apply Forall_forall. intros r Hr. apply Hsub in Hr as [Hr _].
      rewrite Forall_forall in HF. apply HF. done.
  - apply Forall_app. split.
    + apply Forall_replicate. unfold emptyRow. apply Forall_replicate. lia.
    + apply Forall_forall. intros r Hr. apply Hsub in Hr as [Hr _].
      rewrite Forall_forall in Hv. apply Hv. done.
  - unfold no_full_row. apply Forall_app. split.
    + apply Forall_replicate. apply emptyRow_has_zero.
    + apply Forall_forall. intros r Hr. apply Hsub in Hr as [_ Hr]. done.
Qed.



Lemma grid_ok_emptyGrid : grid_ok emptyGrid.
Proof. apply (bool_decide_unpack _). vm_compute. reflexivity. Qed.


(** ** Spawned pieces and the bag *)

Lemma collides_false_in_bounds (g : board) (p : Piece) :
  collides g p = false -> piece_in_bounds p.
Proof.
  intros Hc dy dx (row & v & Hrow & Hv & Hv0) Hr0.
  assert (Hcell : cell_hits g p dy dx v = false).
  { destruct (cell_hits g p dy dx v) eqn:E; [|done]. exfalso.
    assert (collides g p = true); [|congruence]. unfold collides. apply some_true.
    exists dy, row. split; [done|]. apply some_true. exists dx, v. done. }
  unfold cell_hits in Hcell. apply andb_false_iff in Hcell as [H|H].
  - apply negb_false_iff, Z.eqb_eq in H. done.
  - repeat rewrite orb_false_iff in H. destruct H as (((H1 & H2) & H3) & _).
    apply Z.leb_gt in H1. apply Z.ltb_ge in H2. apply Z.leb_gt in H3.
    unfold ROWS, COLS in *. lia.
Qed.

Lemma spawn_ok (k : Z) :
  0 <= k <= 6 ->
  exists p, spawn k = Some p /\ colorIdx p = k /\ y p = 0 /\ collides emptyGrid p = false.
Proof.
  intros Hk. assert (k = 0 \/ k = 1 \/ k = 2 \/ k = 3 \/ k = 4 \/ k = 5 \/ k = 6) as H by lia.
  repeat destruct H as [->|H];
    try (eexists; split; [reflexivity|]; vm_compute; repeat split; done).
  subst. eexists; split; [reflexivity|]; vm_compute; repeat split.
Qed.

Lemma randomPiece_spawn (u : nat) :
  0 <= colorIdx (randomPiece u) <= 6 /\ spawn (colorIdx (randomPiece u)) = Some (randomPiece u).
Proof.
  assert (Hu : (u mod 7 < 7)%nat) by (apply Nat.mod_upper_bound; lia).
  unfold randomPiece.
  destruct (u mod 7)%nat as [|[|[|[|[|[|[|n]]]]]]]; try lia; vm_compute; split; try done; lia.
Qed.

(** Every piece the code spawns fits on the empty board at the top: for
    every random draw, [randomPiece()] of [src/App.tsx] is the piece
    [PieceBag.next()] of [part_000] builds for the same type index
    [0 .. 6], and for every type index that piece lies inside the board and
    does not collide with the empty board. *)
Theorem spawned_pieces_fit :
  (forall u, spawned (randomPiece u)) /\
  (forall k, 0 <= k <= 6 -> exists p, spawn k = Some p /\ spawned p /\ y p = 0 /\
     collides emptyGrid p = false /\ piece_in_bounds p).
Proof.
  split.
  - intros u. apply randomPiece_spawn.
  - intros k Hk. destruct (spawn_ok k Hk) as (p & Ep & Hc & Hy & Hcol).
    exists p. split; [done|]. split; [split; rewrite Hc; done|].
    split; [done|]. split; [done|]. eapply collides_false_in_bounds; exact Hcol.
Qed.

Lemma spawned_pieces_fit_witness :
  exists p, spawn 1 = Some p /\ spawned p /\ y p = 0 /\
     collides emptyGrid p = false /\ piece_in_bounds p.
Proof. apply (proj2 spawned_pieces_fit 1). lia. Defined.

Lemma Forall_removelast {A} (P : A -> Prop) (l : list A) :
  Forall P l -> Forall P (removelast l).
Proof. intros H. rewrite removelast_firstn_len. apply Forall_take. done. Qed.

Lemma bag_reachable_range (b : list Z) :
  bag_reachable b -> Forall (fun c => 0 <= c <= 6) b.
Proof.
  assert (Hr : forall us, Forall (fun c => 0 <= c <= 6) (refillBag us)).
  { intros us. apply Forall_forall. intros c Hc.
    rewrite (proj1 (refillBag_perm us)) in Hc. unfold bag_init in Hc.
    repeat (apply elem_of_cons in Hc as [->|Hc]; [lia|]). apply elem_of_nil in Hc. done. }
  induction 1 as [us|us bag c bag' Hb IH Hn]; [apply Hr|].
  unfold bag_next in Hn. destruct bag as [|a l].
  - destruct (last (refillBag us)); cbn [mbind option_bind] in Hn; [|discriminate].
    injection Hn as _ <-. apply Forall_removelast, Hr.
  - destruct (last (a :: l)); cbn [mbind option_bind] in Hn; [|discriminate].
    injection Hn as _ <-. apply (Forall_removelast _ (a :: l)). done.
Qed.

Lemma bag_next_ok (us : list nat) (b : list Z) :
  bag_reachable b ->
  exists p b', Rich.bagNext us b = Some (p, b') /\ spawned p /\ bag_reachable b'.
Proof.
  intros Hb.
  assert (exists c b', bag_next us b = Some (c, b') /\ 0 <= c <= 6) as (c & b' & E & Hc).
  { assert (Hl : forall l, Forall (fun c => 0 <= c <= 6) l -> l <> [] ->
              exists c, last l = Some c /\ 0 <= c <= 6).
    { intros l Hf Hne. destruct (last l) as [c|] eqn:El.
      - exists c. split; [done|]. apply last_Some_elem_of in El.
        rewrite Forall_forall in Hf. apply Hf. done.
      - apply last_None in El. done. }
    unfold bag_next. destruct b as [|a l].
    - destruct (Hl (refillBag us)) as (c & El & Hc).
      + apply bag_reachable_range. constructor.
      + destruct (refillBag_perm us) as [_ Hlen]. intros E. rewrite E in Hlen. discriminate.
      + rewrite El. exists c, (removelast (refillBag us)). done.
    - destruct (Hl (a :: l)) as (c & El & Hc); [apply bag_reachable_range; done|done|].
      rewrite El. exists c, (removelast (a :: l)). done. }
  unfold Rich.bagNext. rewrite E. cbn [mbind option_bind].
  destruct (spawn_ok c Hc) as (p & Ep & Hcp & _). rewrite Ep. cbn [mbind option_bind].
  exists p, b'. split; [done|]. split; [split; rewrite Hcp; done|].
  econstructor; [exact Hb|exact E].
Qed.

(** [PieceBag.next()] never throws: every pool the bag can reach holds
    type indices in [0 .. 6] only, so [next()] always returns a spawned
    piece and leaves a pool the bag can reach. *)
Theorem piece_bag_next_total (us : list nat) (b : list Z) (Hb : bag_reachable b) :
  Forall (fun c => 0 <= c <= 6) b /\
  exists p b', Rich.bagNext us b = Some (p, b') /\ spawned p /\ bag_reachable b'.
Proof. split; [apply bag_reachable_range; done|apply bag_next_ok; done]. Qed.

Lemma piece_bag_next_total_witness :
  exists p b', Rich.bagNext [] (refillBag []) = Some (p, b') /\ spawned p /\ bag_reachable b'.
Proof. apply (piece_bag_next_total [] (refillBag []) (bag_reach_new [])). Defined.

Lemma bag_draws_app (uss1 uss2 : list (list nat)) (b : list Z) :
  bag_draws (uss1 ++ uss2) b =
    '(cs1, b1) ← bag_draws uss1 b; '(cs2, b2) ← bag_draws uss2 b1; Some (cs1 ++ cs2, b2).
Proof.
  revert b; induction uss1 as [|us uss1 IH]; intros b; cbn [app bag_draws mbind option_bind].
  - destruct (bag_draws uss2 b) as [[cs b2]|]; done.
  - destruct (bag_next us b) as [[c b1]|]; cbn [mbind option_bind]; [|done].
    rewrite IH. destruct (bag_draws uss1 b1) as [[cs1 b2]|]; cbn [mbind option_bind]; [|done].
    destruct (bag_draws uss2 b2) as [[cs2 b3]|]; done.
Qed.

(** The bag deals in rounds: from a fresh [PieceBag], [7 * n] consecutive
    [next()] calls, with any outcome of the shuffles, leave the pool
    empty, and each of the [n] rounds of 7 draws holds every type index
    [0 .. 6] exactly once. *)
Theorem bag_rounds (n : nat) (u0 : list nat) (uss : list (list nat))
    (Hn : (0 < n)%nat) (Hlen : length uss = (7 * n)%nat) :
  exists drawn, bag_draws uss (refillBag u0) = Some (drawn, []) /\
    length drawn = (7 * n)%nat /\
    forall k, (k < n)%nat -> take 7 (drop (7 * k) drawn) ≡ₚ [0; 1; 2; 3; 4; 5; 6].
Proof.
  assert (Hgen : forall b0, (b0 = [] \/ (b0 = refillBag u0 /\ (0 < n)%nat)) ->
    exists drawn, bag_draws uss b0 = Some (drawn, []) /\ length drawn = (7 * n)%nat /\
      forall k, (k < n)%nat -> take 7 (drop (7 * k) drawn) ≡ₚ [0; 1; 2; 3; 4; 5; 6]).
  { clear -Hlen. revert uss Hlen. induction n as [|n IH]; intros uss Hlen b0 Hb0.
    - destruct uss; [|discriminate]. exists []. destruct Hb0 as [->|[_ Hn0]]; [|lia].
      split; [done|]. split; [done|intros; lia].
    - rewrite <-(take_drop 7 uss).
      assert (Ht : length (take 7 uss) = 7%nat) by (rewrite length_take; lia).
      assert (Hd : length (drop 7 uss) = (7 * n)%nat) by (rewrite length_drop; lia).
      assert (Hblock : exists d1, bag_draws (take 7 uss) b0 = Some (d1, []) /\
                 length d1 = 7%nat /\ d1 ≡ₚ [0; 1; 2; 3; 4; 5; 6]).
      { destruct Hb0 as [->|[-> _]].
        - destruct (take 7 uss) as [|us rest] eqn:Et; [discriminate|].
          destruct (refillBag_perm us) as [Hp Hl].
          exists (reverse (refillBag us)). rewrite bag_draws_from_empty.
          + split; [done|]. rewrite length_reverse, Hl. split; [done|].
            rewrite reverse_Permutation. done.
          + rewrite Hl. simpl in Ht. lia.
        - destruct (refillBag_perm u0) as [Hp Hl].
          exists (reverse (refillBag u0)). rewrite bag_draws_pop_all.
          + split; [done|]. rewrite length_reverse, Hl. split; [done|].
            rewrite reverse_Permutation. done.
          + rewrite Hl, Ht. done. }
      destruct Hblock as (d1 & E1 & L1 & P1).
      destruct (IH (drop 7 uss) Hd [] (or_introl eq_refl)) as (d2 & E2 & L2 & P2).
      exists (d1 ++ d2). rewrite bag_draws_app, E1. cbn [mbind option_bind]. rewrite E2.
      split; [done|]. split; [rewrite length_app; lia|].
      intros k Hk. destruct k as [|k].
      + rewrite Nat.mul_0_r, drop_0, take_app_length' by done. done.
      + replace (7 * S k)%nat with (length d1 + 7 * k)%nat by lia.
        rewrite <-drop_drop, drop_app_length. apply P2. lia. }
  apply Hgen. right. done.
Qed.

Lemma bag_rounds_witness :
  exists drawn, bag_draws (replicate 14 []) (refillBag []) = Some (drawn, []) /\
    length drawn = 14%nat /\
    forall k, (k < 2)%nat -> take 7 (drop (7 * k) drawn) ≡ₚ [0; 1; 2; 3; 4; 5; 6].
Proof. apply (bag_rounds 2 [] (replicate 14 [])); [lia|reflexivity]. Defined.

(** ** Pausing *)

(** In [part_000] the [p] key pauses a running game, but [handleKeyDown]
    returns early once [paused] is set: no key, [p] included, changes a
    paused session, and gravity does not run; only the on-screen button
    resumes. *)
Theorem rich_pause_key_one_way (us : list nat) (s : Rich.State) (Hs : rich_running s) :
  Rich.handleKeyDown us KPause s = Some (Rich.set_paused s true) /\
  (forall us' k, Rich.handleKeyDown us' k (Rich.set_paused s true) = Some (Rich.set_paused s true)) /\
  (forall us', Rich.gravity us' (Rich.set_paused s true) = Some (Rich.set_paused s true)).
Proof.
  destruct Hs as (H1 & H2 & H3).
  split; [|split].
  - unfold Rich.handleKeyDown. rewrite H1, H2, H3. done.
  - intros us' k. unfold Rich.handleKeyDown. cbn [Rich.set_paused Rich.paused].
    rewrite orb_true_r. done.
  - intros us'. unfold Rich.gravity. cbn [Rich.set_paused Rich.paused].
    rewrite orb_true_r. done.
Qed.

Lemma rich_pause_key_one_way_witness :
  Rich.handleKeyDown [] KPause rich_fresh = Some (Rich.set_paused rich_fresh true) /\
  Rich.handleKeyDown [] KPause (Rich.set_paused rich_fresh true) = Some (Rich.set_paused rich_fresh true).
Proof.
  destruct (rich_pause_key_one_way [] rich_fresh) as (H1 & H2 & _);
    [split; [reflexivity|split; reflexivity]|].
  split; [exact H1|exact (H2 [] KPause)].
Defined.

(** In [src/App.tsx] the [p] key toggles [paused] both ways once the game
    is started and not over, pausing stops gravity, and every other key
    acts on a paused session exactly as on a running one. *)
Theorem simple_pause_keys (s : Simple.State)
    (Hs : Simple.started s = true) (Ho : Simple.over s = false) :
  Simple.onKey KPause s = Some (Simple.set_paused s (negb (Simple.paused s))) /\
  (Simple.onKey KPause s ≫= Simple.onKey KPause) = Some s /\
  (forall u, Simple.gravity u (Simple.set_paused s true) = Some (Simple.set_paused s true)) /\
  (forall k b, k <> KPause ->
     Simple.onKey k (Simple.set_paused s b) = (fun t => Simple.set_paused t b) <$> Simple.onKey k s).
Proof.
  destruct s as [g p np sc lv st ov pa]. cbn in Hs, Ho. subst st ov.
  split; [|split; [|split]].
  - unfold Simple.onKey. cbn. destruct (collides g p); reflexivity.
  - unfold Simple.onKey. cbn. destruct (collides g p); cbn; destruct (collides g p);
      destruct pa; reflexivity.
  - intros u. unfold Simple.gravity. cbn. done.
  - intros k b Hk. unfold Simple.onKey. cbn.
    destruct (Simple.onKey_np k g p) as [q|]; cbn; [|done].
    destruct k; try congruence; destruct (collides g q); reflexivity.
Qed.

Lemma simple_pause_keys_witness :
  (Simple.onKey KPause simple_resting ≫= Simple.onKey KPause) = Some simple_resting.
Proof. apply (proj1 (proj2 (simple_pause_keys simple_resting eq_refl eq_refl))). Defined.

(** ** Moves *)

Lemma with_x_back (p : Piece) : with_x (with_x p (x p - 1)) (x p - 1 + 1) = p.
Proof. destruct p. unfold with_x. simpl. f_equal. lia. Qed.

Lemma rich_set_piece_same (s : Rich.State) p : Rich.piece s = Some p -> Rich.set_piece s (Some p) = s.
Proof. destruct s. simpl. intros ->. reflexivity. Qed.

(** A move left that succeeds is undone by a move right, in both rulesets:
    from a piece that does not collide, [ArrowLeft] then [ArrowRight]
    gives back the same session. *)
Theorem move_left_right_round_trip (us : list nat) (s : Rich.State) (p : Piece)
    (t : Simple.State)
    (Hs : rich_running s) (Hp : Rich.piece s = Some p)
    (Hfree : collides (Rich.grid s) p = false)
    (Hl : collides (Rich.grid s) (with_x p (x p - 1)) = false)
    (Ht : Simple.started t = true /\ Simple.over t = false)
    (Htf : collides (Simple.grid t) (Simple.piece t) = false)
    (Htl : collides (Simple.grid t) (with_x (Simple.piece t) (x (Simple.piece t) - 1)) = false) :
  (Rich.handleKeyDown us KLeft s ≫= Rich.handleKeyDown us KRight) = Some s /\
  (Simple.onKey KLeft t ≫= Simple.onKey KRight) = Some t.
Proof.
  split.
  - destruct s as [g pc nq hp ch sc lv ln st ov pa bg].
    destruct Hs as (H1 & H2 & H3).
    cbn [Rich.started Rich.over Rich.paused Rich.piece Rich.grid] in *. subst st ov pa pc.
    unfold Rich.handleKeyDown, Rich.shift. cbn -[collides].
    change (x p + -1) with (x p - 1). rewrite Hl. cbn -[collides].
    rewrite with_x_back, Hfree. reflexivity.
  - destruct t as [g p0 np sc lv st ov pa]. destruct Ht as [Hst Hov].
    cbn [Simple.started Simple.over Simple.piece Simple.grid] in *. subst st ov.
    unfold Simple.onKey. cbn -[collides]. rewrite Htl. cbn -[collides].
    rewrite with_x_back, Htf. reflexivity.
Qed.

Lemma move_left_right_round_trip_witness :
  (Rich.handleKeyDown [] KLeft rich_fresh ≫= Rich.handleKeyDown [] KRight) = Some rich_fresh.
Proof.
  apply (proj1 (move_left_right_round_trip [] rich_fresh O_spawned simple_resting
    ltac:(split; [reflexivity|split; reflexivity]) eq_refl
    ltac:(vm_compute; reflexivity) ltac:(vm_compute; reflexivity)
    ltac:(split; reflexivity) ltac:(vm_compute; reflexivity) ltac:(vm_compute; reflexivity))).
Defined.

(** ** Hard drop *)

(** [hardDrop] of [part_000] puts the piece where [getGhostPiece] draws
    its ghost, adds 2 points per row dropped and nothing else; a second
    hard drop changes nothing, and the next [ArrowDown] locks the piece. *)
Theorem hard_drop_lands_on_ghost (us : list nat) (s : Rich.State) (p : Piece) (dy dx : nat)
    (Hp : Rich.piece s = Some p) (Hocc : occupied p dy dx) :
  exists gp,
    getGhostPiece (loop_fuel p) p (Rich.grid s) = Some gp /\ y p <= y gp /\
    Rich.hardDrop s = Some (Rich.mkState (Rich.grid s) (Some gp) (Rich.nextPieces s)
      (Rich.holdPiece s) (Rich.canHold s) (Rich.score s + (y gp - y p) * 2) (Rich.level s)
      (Rich.lines s) (Rich.started s) (Rich.over s) (Rich.paused s) (Rich.bag s)) /\
    forall s', Rich.hardDrop s = Some s' ->
      Rich.hardDrop s' = Some s' /\
      (rich_running s' -> Rich.handleKeyDown us KDown s' = Rich.lockPiece us s').
Proof.
  destruct (drop_loop_stops (Rich.grid s) p dy dx (Z.to_nat (ROWS - y p)) Hocc (le_n _))
    as (gp & E & Hgp & Hle & Hcol & _ & _).
  assert (Eh : Rich.hardDrop s = Some (Rich.mkState (Rich.grid s) (Some gp) (Rich.nextPieces s)
      (Rich.holdPiece s) (Rich.canHold s) (Rich.score s + (y gp - y p) * 2) (Rich.level s)
      (Rich.lines s) (Rich.started s) (Rich.over s) (Rich.paused s) (Rich.bag s))).
  { unfold Rich.hardDrop. rewrite Hp, hardDrop_loop_drop_loop. unfold loop_fuel. rewrite E.
    cbn [fmap option_fmap option_map mbind option_bind]. do 3 f_equal; lia. }
  exists gp. split; [exact E|]. split; [done|]. split; [exact Eh|].
  intros s' Es. rewrite Eh in Es. injection Es as <-. split.
  - unfold Rich.hardDrop. cbn [Rich.piece Rich.grid]. unfold loop_fuel.
    cbn [hardDrop_loop]. rewrite Hcol. cbn [mbind option_bind].
    cbn [Rich.grid Rich.nextPieces Rich.holdPiece Rich.canHold Rich.score Rich.level Rich.lines
      Rich.started Rich.over Rich.paused Rich.bag]. do 2 f_equal; lia.
  - intros (H1 & H2 & H3). unfold Rich.handleKeyDown. rewrite H1, H2, H3.
    cbn [negb orb Rich.piece Rich.grid]. rewrite Hcol. done.
Qed.

Lemma hard_drop_lands_on_ghost_witness :
  exists gp,
    getGhostPiece (loop_fuel O_spawned) O_spawned emptyGrid = Some gp /\ 0 <= y gp /\
    Rich.hardDrop rich_fresh = Some (Rich.mkState emptyGrid (Some gp) (Rich.nextPieces rich_fresh)
      None true (0 + (y gp - 0) * 2) 0 0 true false false []) /\
    forall s', Rich.hardDrop rich_fresh = Some s' ->
      Rich.hardDrop s' = Some s' /\
      (rich_running s' -> Rich.handleKeyDown [] KDown s' = Rich.lockPiece [] s').
Proof.
  apply (hard_drop_lands_on_ghost [] rich_fresh O_spawned 0 0 eq_refl).
  exists [1; 1], 1. split; [reflexivity|]. split; [reflexivity|]. lia.
Defined.

(** [ArrowUp] in [src/App.tsx] (and its [hardDrop] button) moves a piece
    that does not collide down to the lowest free row, like the ghost of
    [part_000], without scoring and without locking it. *)
Theorem simple_hard_drop_key (s : Simple.State) (dy dx : nat)
    (Hs : Simple.started s = true /\ Simple.over s = false)
    (Hfree : collides (Simple.grid s) (Simple.piece s) = false)
    (Hocc : occupied (Simple.piece s) dy dx) :
  exists gp,
    drop_loop (loop_fuel (Simple.piece s)) (Simple.grid s) (Simple.piece s) = Some gp /\
    Simple.onKey KUp s = Some (Simple.set_piece s gp) /\
    gp = with_y (Simple.piece s) (y gp) /\ y (Simple.piece s) <= y gp /\
    collides (Simple.grid s) gp = false /\
    collides (Simple.grid s) (with_y gp (y gp + 1)) = true.
Proof.
  set (p := Simple.piece s) in *. set (g := Simple.grid s) in *.
  destruct (drop_loop_stops g p dy dx (Z.to_nat (ROWS - y p)) Hocc (le_n _))
    as (gp & E & Hgp & Hle & Hcol & _ & Hfr).
  assert (Hgf : collides g gp = false).
  { destruct (decide (y p < y gp)) as [Hlt|Hge]; [apply Hfr; done|].
    rewrite Hgp. replace (y gp) with (y p) by lia. rewrite with_y_y. done. }
  exists gp. split; [exact E|]. split.
  - destruct Hs as [H1 H2]. unfold Simple.onKey. rewrite H1, H2. cbn [negb orb].
    fold p g. cbn [Simple.onKey_np]. unfold loop_fuel in *. rewrite E.
    cbn [mbind option_bind]. rewrite Hgf. done.
  - done.
Qed.

Lemma simple_hard_drop_key_witness :
  exists gp,
    drop_loop (loop_fuel O_spawned) emptyGrid O_spawned = Some gp /\
    Simple.onKey KUp (Simple.set_piece simple_resting O_spawned) =
      Some (Simple.set_piece (Simple.set_piece simple_resting O_spawned) gp) /\
    gp = with_y O_spawned (y gp) /\ 0 <= y gp /\
    collides emptyGrid gp = false /\ collides emptyGrid (with_y gp (y gp + 1)) = true.
Proof.
  apply (simple_hard_drop_key (Simple.set_piece simple_resting O_spawned) 0 0);
    [split; reflexivity|vm_compute; reflexivity|].
  exists [1; 1], 1. split; [reflexivity|]. split; [reflexivity|]. lia.
Defined.

(** ** Reset *)

(** [resetGame] of [part_000] deals the first piece twice: the active piece
    is also the head of the preview queue, so the lock of that piece (after
    any moves, which leave the queue alone) brings the very same piece back
    at the top. *)
Theorem reset_deals_first_piece_twice (u0 us1 us2 us3 us : list nat) (s : Rich.State) :
  exists s1, Rich.resetGame u0 us1 us2 us3 s = Some s1 /\
    Rich.grid s1 = emptyGrid /\ rich_supply_ok s1 /\
    Rich.piece s1 = Rich.nextPieces s1 !! 0%nat /\
    forall t t', Rich.nextPieces t = Rich.nextPieces s1 -> Rich.piece t <> None ->
      Rich.lockPiece us t = Some t' -> Rich.piece t' = Rich.piece s1.
Proof.
  destruct (bag_next_ok us1 (refillBag u0) (bag_reach_new u0)) as (p1 & b1 & E1 & S1 & R1).
  destruct (bag_next_ok us2 b1 R1) as (p2 & b2 & E2 & S2 & R2).
  destruct (bag_next_ok us3 b2 R2) as (p3 & b3 & E3 & S3 & R3).
  unfold Rich.resetGame. rewrite E1. cbn [mbind option_bind]. rewrite E2.
  cbn [mbind option_bind]. rewrite E3. cbn [mbind option_bind].
  eexists. split; [reflexivity|]. cbn [Rich.grid Rich.piece Rich.nextPieces].
  split; [done|]. split; [split; [done|split; [constructor; [done|constructor; [done|constructor; [done|constructor]]]|done]]|].
  split; [done|].
  intros t t' Hq Hp E. unfold Rich.lockPiece in E.
  destruct (Rich.piece t) as [p|]; [|congruence].
  destruct (merge (Rich.grid t) p) as [mg|]; cbn [mbind option_bind] in E; [|discriminate].
  destruct (clearLines mg) as [ng cl]. cbn [mbind option_bind] in E.
  destruct (Rich.bagNext us (Rich.bag t)) as [[d b']|]; cbn [mbind option_bind] in E; [|discriminate].
  rewrite Hq in E. cbn in E. injection E as <-. done.
Qed.

Lemma reset_deals_first_piece_twice_witness :
  exists s1, Rich.resetGame [] [] [] [] rich_fresh = Some s1 /\
    Rich.piece s1 = Rich.nextPieces s1 !! 0%nat /\
    forall t', Rich.lockPiece [] (Rich.set_piece s1 (Rich.piece s1)) = Some t' ->
      Rich.piece t' = Rich.piece s1.
Proof.
  destruct (reset_deals_first_piece_twice [] [] [] [] [] rich_fresh) as (s1 & E & _ & _ & Hp & H).
  exists s1. split; [exact E|]. split; [exact Hp|].
  intros t' Et. apply (H (Rich.set_piece s1 (Rich.piece s1)) t'); [reflexivity| |exact Et].
  cbn [Rich.set_piece Rich.piece]. rewrite Hp.
  vm_compute in E. injection E as <-. vm_compute. discriminate.
Defined.

(** ** Level and speed *)

(** The gravity interval is [max(100, 500 - 20 * level)] ms in
    [src/App.tsx] and [max(100, 500 - 30 * level)] ms in [part_000]: for
    levels [>= 0] it stays in [100 .. 500], never grows with the level,
    and reaches its floor of 100 ms exactly from level 20, respectively
    14.  In [part_000] the level effect sets the level to
    [floor(lines / 10)], and running it again changes nothing. *)
Theorem gravity_speed (l l' : Z) (Hl : 0 <= l) (Hll : l <= l') :
  100 <= Simple.speed l <= 500 /\ Simple.speed l' <= Simple.speed l /\
  (Simple.speed l = 100 <-> 20 <= l) /\
  100 <= Rich.speed l <= 500 /\ Rich.speed l' <= Rich.speed l /\
  (Rich.speed l = 100 <-> 14 <= l) /\
  (forall s, Rich.level (Rich.syncLevel s) = Rich.lines s / 10 /\
     Rich.syncLevel (Rich.syncLevel s) = Rich.syncLevel s).
Proof.
  unfold Simple.speed, Rich.speed.
  split; [lia|]. split; [lia|]. split; [lia|].
  split; [lia|]. split; [lia|]. split; [lia|].
  intros s. unfold Rich.syncLevel.
  destruct (Z.eqb_spec (Rich.lines s / 10) (Rich.level s)) as [Heq|Hne]; cbn [negb].
  - rewrite Heq, Z.eqb_refl. done.
  - cbn [Rich.lines Rich.level]. rewrite Z.eqb_refl. done.
Qed.

Lemma gravity_speed_witness :
  Simple.speed 3 <= Simple.speed 0 /\ Rich.speed 3 <= Rich.speed 0.
Proof.
  destruct (gravity_speed 0 3) as (_ & H1 & _ & _ & H2 & _); [lia|lia|].
  split; [exact H1|exact H2].
Defined.

(** ** Score *)










(** ** The board after a lock, for pieces inside the board *)

(** A lock in either ruleset of a piece with a colour index in [0 .. 6]
    whose cells of rows [>= 0] lie inside the board (as for every piece
    that does not collide) succeeds on a ROWS x COLS grid of cells
    [0 .. 7] and gives a grid of the same kind (so that [COLORS[cell - 1]]
    is defined for every filled cell) with no full row; in [part_000] it
    needs a non-empty preview queue and a bag pool the bag can reach. *)
Theorem lock_keeps_board_ok :
  (forall u s p, grid_ok (Simple.grid s) -> 0 <= colorIdx p <= 6 -> piece_in_bounds p ->
     exists s', Simple.lock u s p = Some s' /\
       grid_ok (Simple.grid s') /\ no_full_row (Simple.grid s')) /\
  (forall us s p, Rich.piece s = Some p -> grid_ok (Rich.grid s) -> 0 <= colorIdx p <= 6 ->
     piece_in_bounds p -> bag_reachable (Rich.bag s) -> Rich.nextPieces s <> [] ->
     exists s', Rich.lockPiece us s = Some s' /\
       grid_ok (Rich.grid s') /\ no_full_row (Rich.grid s')).
Proof.
  split.
  - intros u s p Hg Hc Hin. unfold Simple.lock.
    destruct (merge_some (Simple.grid s) p (proj1 Hg) Hin) as (mg & Em). rewrite Em.
    cbn [mbind option_bind].
    pose proof (clearLines_ok mg (merge_ok _ _ _ Hg Hc Em)) as Hok.
    destruct (clearLines mg) as [ng cl]. eexists. split; [reflexivity|exact Hok].
  - intros us s p Hp Hg Hc Hin Hb Hq. unfold Rich.lockPiece. rewrite Hp.
    destruct (merge_some (Rich.grid s) p (proj1 Hg) Hin) as (mg & Em). rewrite Em.
    cbn [mbind option_bind].
    pose proof (clearLines_ok mg (merge_ok _ _ _ Hg Hc Em)) as Hok.
    destruct (clearLines mg) as [ng cl]. cbn [mbind option_bind].
    destruct (bag_next_ok us (Rich.bag s) Hb) as (d & b' & Eb & _). rewrite Eb.
    cbn [mbind option_bind].
    destruct (Rich.nextPieces s) as [|a q]; [done|]. cbn.
    eexists. split; [reflexivity|exact Hok].
Qed.

Lemma lock_keeps_board_ok_witness :
  exists s', Simple.lock 0 simple_resting (with_y O_spawned 18) = Some s' /\
    grid_ok (Simple.grid s') /\ no_full_row (Simple.grid s').
Proof.
  apply (proj1 lock_keeps_board_ok 0%nat simple_resting (with_y O_spawned 18));
    [exact grid_ok_emptyGrid|simpl; lia|].
  apply (collides_false_in_bounds emptyGrid). vm_compute. reflexivity.
Defined.

(** ** Sessions never throw *)

Lemma shape_ok_SHAPES (k : nat) (sh : list (list Z)) : SHAPES !! k = Some sh -> shape_ok sh.
Proof.
  intros E.
  destruct k as [|[|[|[|[|[|[|k]]]]]]]; cbn in E; try discriminate; injection E as <-;
    match goal with
    | |- shape_ok ?m =>
        exists (length m), (length (m !!! 0%nat)); split; [cbn; lia|]; split; [cbn; lia|];
        split; [reflexivity|]; split; [repeat constructor|];
        exists (pred (length m)), 1%nat; cbn; eexists _, _;
        (split; [reflexivity|]); (split; [reflexivity|]); lia
    end.
Qed.

Lemma spawned_piece_ok (p : Piece) : spawned p -> piece_ok p.
Proof.
  intros [Hc Es]. destruct (spawn_ok (colorIdx p) Hc) as (p' & Ep & _ & _ & Hcol).
  rewrite Es in Ep. injection Ep as <-.
  split; [|split; [done|eapply collides_false_in_bounds; exact Hcol]].
  unfold spawn in Es. destruct (SHAPES !! Z.to_nat (colorIdx p)) as [sh|] eqn:Esh;
    cbn [mbind option_bind] in Es; [|discriminate].
  destruct (centered_x sh); cbn [mbind option_bind] in Es; [|discriminate].
  injection Es as <-. cbn [shape]. eapply shape_ok_SHAPES; exact Esh.
Qed.


(** A moved, dropped or rotated piece keeps a tetromino-like shape and its
    colour; when it does not collide it lies inside the board. *)
Lemma piece_ok_moved (g : board) (q : Piece) :
  shape_ok (shape q) -> 0 <= colorIdx q <= 6 -> collides g q = false -> piece_ok q.
Proof.
  intros Hs Hc Hcol. split; [done|]. split; [done|]. eapply collides_false_in_bounds; exact Hcol.
Qed.

Lemma rotated_shape_ok (m m' : list (list Z)) (R C : nat) :
  (0 < R <= 4)%nat -> (0 < C <= 4)%nat -> length m = R -> Forall (fun r => length r = C) m ->
  (exists dy dx row v, m !! dy = Some row /\ row !! dx = Some v /\ v <> 0) ->
  rotated_ok m m' R C -> shape_ok m'.
Proof.
  intros HR HC HL HF (dy & dx & row & v & Hrow & Hv & Hv0) (HL' & HF' & Hcell).
  exists C, R. split; [done|]. split; [done|]. split; [done|]. split; [done|].
  pose proof (lookup_lt_Some _ _ _ Hrow) as Hdy.
  pose proof (lookup_lt_Some _ _ _ Hv) as Hdx.
  rewrite (Forall_lookup_1 _ _ _ _ HF Hrow) in Hdx.
  specialize (Hcell dy dx ltac:(lia) ltac:(lia)). rewrite Hrow in Hcell. cbn in Hcell.
  rewrite Hv in Hcell.
  destruct (m' !! dx) as [row'|] eqn:E'; cbn in Hcell; [|discriminate].
  exists dx, (R - 1 - dy)%nat, row', v. done.
Qed.

Lemma rotate_shape_ok (sh : list (list Z)) :
  shape_ok sh ->
  (exists sh', rotate_app sh = Some sh' /\ shape_ok sh') /\
  (exists sh', rotate_loop sh = Some sh' /\ shape_ok sh').
Proof.
  intros (R & C & HR & HC & HL & HF & Hocc). split.
  - destruct (rotate_app_ok sh R C HL HF ltac:(lia)) as (sh' & E & Hr).
    exists sh'. split; [done|]. exact (rotated_shape_ok sh sh' R C HR HC HL HF Hocc Hr).
  - destruct (rotate_loop_ok sh R C HL HF ltac:(lia)) as (sh' & E & Hr).
    exists sh'. split; [done|]. exact (rotated_shape_ok sh sh' R C HR HC HL HF Hocc Hr).
Qed.

Lemma drop_loop_piece_ok (g : board) (p : Piece) :
  piece_ok p -> exists p', drop_loop (loop_fuel p) g p = Some p' /\ piece_ok p'.
Proof.
  intros (Hs & Hc & Hb).
  destruct Hs as (R & C & HR & HC & HL & HF & (dy & dx & row & v & Hrow & Hv & Hv0)) eqn:Hs'.
  destruct (drop_loop_stops g p dy dx (Z.to_nat (ROWS - y p))) as (p' & E & Hp' & Hle & _ & _ & Hfree).
  - exists row, v. done.
  - lia.
  - exists p'. split; [exact E|].
    destruct (decide (y p = y p')) as [Heq|Hne].
    + rewrite Hp', <-Heq, with_y_y. split; [done|]. split; done.
    + rewrite Hp'. apply (piece_ok_moved g); [done|done|]. rewrite <-Hp'. apply Hfree. lia.
Qed.

(** A piece placed at the centred column of the top row, as [holdPieceAction]
    places the held and the swapped piece, lies inside the board. *)
Lemma hold_ok_of (sh : list (list Z)) (cx : Z) (c : Z) :
  shape_ok sh -> 0 <= c <= 6 -> centered_x sh = Some cx -> piece_ok (mkPiece sh cx 0 c).
Proof.
  intros Hs Hc E. split; [exact Hs|]. split; [exact Hc|].
  destruct Hs as (R & C & HR & HC & HL & HF & Hocc).
  destruct sh as [|r0 rest]; [discriminate|]. injection E as <-.
  intros dy dx (row & v & Hrow & Hv & _) _. cbn [x y shape] in *.
  pose proof (lookup_lt_Some _ _ _ Hrow) as Hdy.
  pose proof (lookup_lt_Some _ _ _ Hv) as Hdx.
  rewrite (Forall_lookup_1 _ _ _ _ HF Hrow) in Hdx.
  assert (length r0 = C) as Hr0 by (exact (Forall_inv HF)).
  unfold ROWS, COLS. rewrite Hr0. Z.div_mod_to_equations. lia.
Qed.

Lemma centered_x_some (sh : list (list Z)) : shape_ok sh -> exists cx, centered_x sh = Some cx.
Proof.
  intros (R & C & HR & _ & HL & _). destruct sh as [|r0 rest]; [cbn in HL; lia|].
  eexists. reflexivity.
Qed.

Lemma rich_ok_intro g p q h ch sc lv ln st ov pa b :
  grid_ok g -> piece_ok p -> length q = 3%nat -> Forall spawned q -> bag_reachable b ->
  (forall h', h = Some h' -> shape_ok (shape h') /\ 0 <= colorIdx h' <= 6) ->
  rich_ok (Rich.mkState g (Some p) q h ch sc lv ln st ov pa b).
Proof.
  intros Hg Hp Hl Hq Hb Hh. split; [done|]. split; [split; [done|split; done]|].
  split; [exists p; done|done].
Qed.

Lemma rich_ok_set_piece (s : Rich.State) (q : Piece) :
  rich_ok s -> piece_ok q -> rich_ok (Rich.set_piece s (Some q)).
Proof.
  intros (Hg & (Hl & Hq & Hb) & _ & Hh) Hp. apply rich_ok_intro; done.
Qed.

Lemma rich_lockPiece_ok (us : list nat) (s : Rich.State) :
  rich_ok s -> exists s', Rich.lockPiece us s = Some s' /\ rich_ok s'.
Proof.
  intros (Hg & (Hl & Hq & Hb) & (p & Hp & (Hs & Hc & Hin)) & Hh).
  unfold Rich.lockPiece. rewrite Hp.
  destruct (merge_some (Rich.grid s) p (proj1 Hg) Hin) as (mg & Em). rewrite Em.
  cbn [mbind option_bind].
  pose proof (clearLines_ok mg (merge_ok _ _ _ Hg Hc Em)) as [Hng _].
  destruct (clearLines mg) as [ng cl]. cbn [fst] in Hng.
  destruct (bag_next_ok us (Rich.bag s) Hb) as (d & b' & Eb & Hd & Hb'). rewrite Eb.
  cbn [mbind option_bind].
  destruct (Rich.nextPieces s) as [|a [|a2 [|a3 [|a4 q]]]]; cbn in Hl; try discriminate.
  eexists. split; [reflexivity|].
  apply Forall_cons in Hq as [Ha Hq].
  apply rich_ok_intro; try done.
  - apply spawned_piece_ok. done.
  - apply Forall_app. split; [done|]. constructor; done.
Qed.

(** Both rules on the keys: the running moves of [handleKeyDown]. *)
Lemma rich_step_ok (us : list nat) (k : key) (s : Rich.State) :
  rich_ok s -> exists s', Rich.handleKeyDown us k s = Some s' /\ rich_ok s'.
Proof.
  intros Hok. pose proof Hok as (Hg & (Hl & Hq & Hb) & (p & Hp & (Hs & Hc & Hin)) & Hh).
  unfold Rich.handleKeyDown.
  destruct (negb (Rich.started s) || Rich.over s || Rich.paused s); [exists s; done|].
  destruct k.
  - unfold Rich.shift. rewrite Hp. destruct (collides _ _) eqn:Ec; eexists; (split; [reflexivity|]);
      [done|]. apply rich_ok_set_piece; [done|]. apply (piece_ok_moved (Rich.grid s)); done.
  - unfold Rich.shift. rewrite Hp. destruct (collides _ _) eqn:Ec; eexists; (split; [reflexivity|]);
      [done|]. apply rich_ok_set_piece; [done|]. apply (piece_ok_moved (Rich.grid s)); done.
  - rewrite Hp. destruct (collides _ _) eqn:Ec; [apply rich_lockPiece_ok; done|].
    eexists; split; [reflexivity|]. apply rich_ok_set_piece; [done|].
    apply (piece_ok_moved (Rich.grid s)); done.
  - unfold Rich.hardDrop. rewrite Hp, hardDrop_loop_drop_loop.
    destruct (drop_loop_piece_ok (Rich.grid s) p (conj Hs (conj Hc Hin))) as (p' & E & Hp').
    rewrite E. cbn [fmap option_fmap option_map mbind option_bind]. eexists; split; [reflexivity|]. apply rich_ok_intro; done.
  - unfold Rich.rotatePiece. rewrite Hp.
    destruct (proj2 (rotate_shape_ok (shape p) Hs)) as (sh' & E & Hsh'). rewrite E.
    cbn [mbind option_bind]. destruct (collides _ _) eqn:Ec; cbn [negb];
      eexists; (split; [reflexivity|]); [done|].
    apply rich_ok_set_piece; [done|]. apply (piece_ok_moved (Rich.grid s)); done.
  - unfold Rich.holdPieceAction. rewrite Hp.
    destruct (Rich.canHold s); cbn [negb]; [|exists s; done].
    destruct (centered_x_some (shape p) Hs) as (cx & Ecx). rewrite Ecx.
    cbn [mbind option_bind].
    destruct (Rich.holdPiece s) as [h|] eqn:Eh.
    + destruct (Hh h eq_refl) as [Hsh Hch].
      destruct (centered_x_some (shape h) Hsh) as (hx & Ehx). rewrite Ehx.
      cbn [mbind option_bind]. eexists; split; [reflexivity|].
      apply rich_ok_intro; try done.
      * apply hold_ok_of; done.
      * intros h' E'. injection E' as <-. done.
    + destruct (bag_next_ok us (Rich.bag s) Hb) as (d & b' & Eb & Hd & Hb'). rewrite Eb.
      cbn [mbind option_bind].
      destruct (Rich.nextPieces s) as [|a [|a2 [|a3 [|a4 q]]]]; cbn in Hl; try discriminate.
      apply Forall_cons in Hq as [Ha Hq].
      eexists; split; [reflexivity|]. apply rich_ok_intro; try done.
      * apply spawned_piece_ok. done.
      * apply Forall_app. split; [done|]. constructor; done.
      * intros h' E'. injection E' as <-. done.
  - eexists; split; [reflexivity|]. destruct Hok as (? & (? & ? & ?) & (? & ? & ?) & ?).
    split; [done|]. split; [split; [done|split; done]|]. split; [eexists; done|done].
  - exists s; done.
Qed.

Lemma rich_gravity_ok (us : list nat) (s : Rich.State) :
  rich_ok s -> exists s', Rich.gravity us s = Some s' /\ rich_ok s'.
Proof.
  intros Hok. pose proof Hok as (Hg & _ & (p & Hp & (Hs & Hc & Hin)) & _).
  unfold Rich.gravity.
  destruct (negb (Rich.started s) || Rich.over s || Rich.paused s); [exists s; done|].
  rewrite Hp. destruct (collides _ _) eqn:Ec; [apply rich_lockPiece_ok; done|].
  eexists; split; [reflexivity|]. apply rich_ok_set_piece; [done|].
  apply (piece_ok_moved (Rich.grid s)); done.
Qed.

Lemma rich_reset_ok (u0 us1 us2 us3 : list nat) (s : Rich.State) :
  exists s1, Rich.resetGame u0 us1 us2 us3 s = Some s1 /\ rich_ok s1.
Proof.
  destruct (bag_next_ok us1 (refillBag u0) (bag_reach_new u0)) as (p1 & b1 & E1 & S1 & R1).
  destruct (bag_next_ok us2 b1 R1) as (p2 & b2 & E2 & S2 & R2).
  destruct (bag_next_ok us3 b2 R2) as (p3 & b3 & E3 & S3 & R3).
  unfold Rich.resetGame. rewrite E1. cbn [mbind option_bind]. rewrite E2.
  cbn [mbind option_bind]. rewrite E3. cbn [mbind option_bind].
  eexists. split; [reflexivity|]. apply rich_ok_intro; try done.
  - apply grid_ok_emptyGrid.
  - apply spawned_piece_ok. done.
  - constructor; [done|constructor; [done|constructor; done]].
Qed.

(** The richer game never throws and never hangs: [resetGame] leaves a
    session in which the board is a ROWS x COLS grid of colour numbers
    [0 .. 7], the preview queue holds three spawned pieces, the bag pool
    is one the bag can reach, the active piece has a tetromino-like shape
    inside the board and the held piece a tetromino-like shape; from every
    such session every key of [handleKeyDown] and every gravity tick
    returns (no [TypeError], no endless loop) a session of the same kind. *)
Theorem rich_session_never_fails :
  (forall u0 us1 us2 us3 s, exists s1, Rich.resetGame u0 us1 us2 us3 s = Some s1 /\ rich_ok s1) /\
  (forall us k s, rich_ok s -> exists s', Rich.handleKeyDown us k s = Some s' /\ rich_ok s') /\
  (forall us s, rich_ok s -> exists s', Rich.gravity us s = Some s' /\ rich_ok s').
Proof.
  split; [exact rich_reset_ok|]. split; [exact rich_step_ok|exact rich_gravity_ok].
Qed.

Lemma rich_session_never_fails_witness :
  exists s1 s2 s3, Rich.resetGame [] [] [] [] rich_fresh = Some s1 /\
    Rich.handleKeyDown [] KUp s1 = Some s2 /\ Rich.gravity [] s2 = Some s3 /\ rich_ok s3.
Proof.
  destruct (proj1 rich_session_never_fails [] [] [] [] rich_fresh) as (s1 & E1 & H1).
  destruct (proj1 (proj2 rich_session_never_fails) [] KUp s1 H1) as (s2 & E2 & H2).
  destruct (proj2 (proj2 rich_session_never_fails) [] s2 H2) as (s3 & E3 & H3).
  exists s1, s2, s3. done.
Defined.

Lemma simple_piece_choice (g : board) (p np : Piece) :
  piece_ok p -> shape_ok (shape np) -> 0 <= colorIdx np <= 6 ->
  piece_ok (if collides g np then p else np).
Proof.
  intros Hp Hs Hc. destruct (collides g np) eqn:Ec; [done|].
  apply (piece_ok_moved g); done.
Qed.

Lemma simple_ok_intro g p n sc lv st ov pa :
  grid_ok g -> piece_ok p -> spawned n -> simple_ok (Simple.mkState g p n sc lv st ov pa).
Proof. intros Hg Hp Hn. split; [done|split; done]. Qed.

Lemma simple_step_ok (k : key) (s : Simple.State) :
  simple_ok s -> exists s', Simple.onKey k s = Some s' /\ simple_ok s'.
Proof.
  intros (Hg & Hp & Hn). unfold Simple.onKey.
  destruct (negb (Simple.started s) || Simple.over s); [exists s; split; [done|split; [done|split; done]]|].
  assert (exists np, Simple.onKey_np k (Simple.grid s) (Simple.piece s) = Some np /\
            shape_ok (shape np) /\ 0 <= colorIdx np <= 6) as (np & E & Hs & Hc).
  { pose proof Hp as (Hs & Hc & Hin).
    destruct k; cbn [Simple.onKey_np]; try (eexists; split; [reflexivity|]; done).
    - destruct (drop_loop_piece_ok (Simple.grid s) (Simple.piece s) Hp) as (p' & E & Hs' & Hc' & _).
      rewrite E. exists p'. done.
    - destruct (proj1 (rotate_shape_ok (shape (Simple.piece s)) Hs)) as (sh' & E & Hsh').
      rewrite E. eexists; split; [reflexivity|]. done. }
  rewrite E. cbn [mbind option_bind]. eexists; split; [reflexivity|].
  pose proof (simple_piece_choice (Simple.grid s) (Simple.piece s) np Hp Hs Hc) as Hch.
  destruct k; apply simple_ok_intro; done.
Qed.

Lemma simple_gravity_ok (u : nat) (s : Simple.State) :
  simple_ok s -> exists s', Simple.gravity u s = Some s' /\ simple_ok s'.
Proof.
  intros Hok. pose proof Hok as (Hg & (Hs & Hc & Hin) & Hn). unfold Simple.gravity.
  destruct (negb (Simple.started s) || Simple.over s || Simple.paused s); [exists s; done|].
  destruct (collides _ _) eqn:Ec.
  - destruct (y (Simple.piece s) =? 0).
    + eexists; split; [reflexivity|]. apply simple_ok_intro; done.
    + unfold Simple.lock.
      destruct (merge_some (Simple.grid s) (Simple.piece s) (proj1 Hg) Hin) as (mg & Em).
      rewrite Em. cbn [mbind option_bind].
      pose proof (clearLines_ok mg (merge_ok _ _ _ Hg Hc Em)) as [Hng _].
      destruct (clearLines mg) as [ng cl]. cbn [fst] in Hng.
      eexists; split; [reflexivity|]. apply simple_ok_intro; try done.
      * apply spawned_piece_ok. done.
      * apply randomPiece_spawn.
  - eexists; split; [reflexivity|]. apply simple_ok_intro; try done.
    apply (piece_ok_moved (Simple.grid s)); done.
Qed.

Lemma simple_reset_ok (u1 u2 : nat) (s : Simple.State) : simple_ok (Simple.resetGame u1 u2 s).
Proof.
  apply simple_ok_intro.
  - apply grid_ok_emptyGrid.
  - apply spawned_piece_ok. apply randomPiece_spawn.
  - apply randomPiece_spawn.
Qed.

(** The simple game never throws and never hangs either: [resetGame]
    leaves a session whose board is a ROWS x COLS grid of colour numbers
    [0 .. 7], whose active piece has a tetromino-like shape inside the
    board and whose next piece is a spawned piece; from every such session
    every key of [onKey] (including the [ArrowUp] drop loop and the
    rotation) and every gravity tick returns a session of the same kind. *)
Theorem simple_session_never_fails :
  (forall u1 u2 s, simple_ok (Simple.resetGame u1 u2 s)) /\
  (forall k s, simple_ok s -> exists s', Simple.onKey k s = Some s' /\ simple_ok s') /\
  (forall u s, simple_ok s -> exists s', Simple.gravity u s = Some s' /\ simple_ok s').
Proof.
  split; [exact simple_reset_ok|]. split; [exact simple_step_ok|exact simple_gravity_ok].
Qed.

Lemma simple_session_never_fails_witness :
  exists s2 s3, Simple.onKey KSpace (Simple.resetGame 2 5 simple_resting) = Some s2 /\
    Simple.gravity 3 s2 = Some s3 /\ simple_ok s3.
Proof.
  pose proof (proj1 simple_session_never_fails 2%nat 5%nat simple_resting) as H1.
  destruct (proj1 (proj2 simple_session_never_fails) KSpace _ H1) as (s2 & E2 & H2).
  destruct (proj2 (proj2 simple_session_never_fails) 3%nat s2 H2) as (s3 & E3 & H3).
  exists s2, s3. done.
Defined.

(** ** Game over and hold *)

Lemma rich_frozen_step (s s1 : Rich.State) :
  Rich.started s = false \/ Rich.over s = true ->
  ((exists us k, Rich.handleKeyDown us k s = Some s1) \/ (exists us, Rich.gravity us s = Some s1)) ->
  s1 = s.
Proof.
  intros Hf [(us & k & E)|(us & E)];
    [unfold Rich.handleKeyDown in E|unfold Rich.gravity in E];
    (destruct Hf as [H|H]; rewrite H in E; [|rewrite ?orb_true_r in E]; cbn in E;
     injection E as <-; done).
Qed.

Lemma simple_frozen_step (s s1 : Simple.State) :
  Simple.started s = false \/ Simple.over s = true ->
  ((exists k, Simple.onKey k s = Some s1) \/ (exists u, Simple.gravity u s = Some s1)) ->
  s1 = s.
Proof.
  intros Hf [(k & E)|(u & E)];
    [unfold Simple.onKey in E|unfold Simple.gravity in E];
    (destruct Hf as [H|H]; rewrite H in E; [|rewrite ?orb_true_r in E]; cbn in E;
     injection E as <-; done).
Qed.

(** A session that is over, or not yet started, is frozen: whatever keys
    are pressed and however often the gravity interval fires, in both
    rulesets the session stays exactly as it is (only [resetGame] leaves
    it). *)
Theorem game_over_is_final :
  (forall s s', Rich.started s = false \/ Rich.over s = true -> rich_run s s' -> s' = s) /\
  (forall s s', Simple.started s = false \/ Simple.over s = true -> simple_run s s' -> s' = s).
Proof.
  split.
  - intros s s' Hf Hr. induction Hr as [s|us k s s1 s' E _ IH|us s s1 s' E _ IH]; [done| |].
    + assert (s1 = s) as -> by (apply (rich_frozen_step s s1 Hf); left; eauto). apply IH, Hf.
    + assert (s1 = s) as -> by (apply (rich_frozen_step s s1 Hf); right; eauto). apply IH, Hf.
  - intros s s' Hf Hr. induction Hr as [s|k s s1 s' E _ IH|u s s1 s' E _ IH]; [done| |].
    + assert (s1 = s) as -> by (apply (simple_frozen_step s s1 Hf); left; eauto). apply IH, Hf.
    + assert (s1 = s) as -> by (apply (simple_frozen_step s s1 Hf); right; eauto). apply IH, Hf.
Qed.

Lemma game_over_is_final_witness :
  exists s', rich_run (Rich.mkState emptyGrid (Some O_spawned) [O_spawned; O_spawned; O_spawned]
                 None true 0 0 0 true true false []) s' /\
    s' = Rich.mkState emptyGrid (Some O_spawned) [O_spawned; O_spawned; O_spawned]
           None true 0 0 0 true true false [].
Proof.
  eexists. split.
  - eapply (rich_run_tick [] _ _ _); [reflexivity|].
    eapply (rich_run_key [] KDown _ _ _); [reflexivity|]. apply rich_run_done.
  - apply (proj1 game_over_is_final); [right; reflexivity|].
    eapply (rich_run_tick [] _ _ _); [reflexivity|].
    eapply (rich_run_key [] KDown _ _ _); [reflexivity|]. apply rich_run_done.
Defined.

Lemma bag_reachable_prefix (b l : list Z) : bag_reachable (b ++ l) -> bag_reachable b.
Proof.
  induction l as [|c l IH] using rev_ind; intros H; [rewrite app_nil_r in H; done|].
  apply IH. rewrite app_assoc in H.
  apply (bag_reach_next [] _ c _ H). apply bag_next_snoc.
Qed.

Lemma rich_fresh_ok : rich_ok rich_fresh.
Proof.
  assert (HO : spawned O_spawned) by (split; [cbn; lia|reflexivity]).
  apply rich_ok_intro.
  - apply grid_ok_emptyGrid.
  - apply spawned_piece_ok. done.
  - reflexivity.
  - constructor; [done|constructor; [done|constructor; done]].
  - apply (bag_reachable_prefix [] (refillBag [])). constructor.
  - discriminate.
Qed.

(** Hold works once per piece ([holdPieceAction] of [part_000]): in a
    running session with a free hold, ['c'] stores the active piece, in
    its current rotation, back at the centred top position, brings in the
    held piece at its centred top position or, with an empty slot, the
    head of the preview queue, and leaves the board alone; a second ['c']
    changes nothing; the next lock frees the hold again. *)
Theorem hold_once_per_piece (us us' us'' : list nat) (s : Rich.State) (p : Piece)
    (Hok : rich_ok s) (Hrun : rich_running s) (Hp : Rich.piece s = Some p)
    (Hch : Rich.canHold s = true) :
  exists s1 cx, Rich.handleKeyDown us KHold s = Some s1 /\
    centered_x (shape p) = Some cx /\
    Rich.holdPiece s1 = Some (mkPiece (shape p) cx 0 (colorIdx p)) /\
    Rich.canHold s1 = false /\ Rich.grid s1 = Rich.grid s /\
    (forall h, Rich.holdPiece s = Some h ->
       exists hx, centered_x (shape h) = Some hx /\
         Rich.piece s1 = Some (mkPiece (shape h) hx 0 (colorIdx h))) /\
    (Rich.holdPiece s = None -> Rich.piece s1 = Rich.nextPieces s !! 0%nat) /\
    Rich.handleKeyDown us' KHold s1 = Some s1 /\
    (forall s2, Rich.lockPiece us'' s1 = Some s2 -> Rich.canHold s2 = true).
Proof.
  destruct Hok as (Hg & (Hl & Hq & Hb) & (p0 & Hp0 & (Hs0 & _)) & Hh).
  rewrite Hp in Hp0. injection Hp0 as <-.
  destruct Hrun as (Hst & Hov & Hpa).
  destruct (centered_x_some (shape p) Hs0) as (cx & Ecx).
  assert (Hlock : forall s1 q, Rich.piece s1 = Some q ->
            forall s2, Rich.lockPiece us'' s1 = Some s2 -> Rich.canHold s2 = true).
  { intros s1 q Hq1 s2 E. unfold Rich.lockPiece in E. rewrite Hq1 in E.
    destruct (merge (Rich.grid s1) q) as [mg|]; cbn [mbind option_bind] in E; [|discriminate].
    destruct (clearLines mg) as [ng cl]. cbn [mbind option_bind] in E.
    destruct (Rich.bagNext us'' (Rich.bag s1)) as [[d b']|]; cbn [mbind option_bind] in E;
      [|discriminate].
    destruct (Rich.nextPieces s1 !! 0%nat); cbn [mbind option_bind] in E; [|discriminate].
    injection E as <-. done. }
  unfold Rich.handleKeyDown. rewrite Hst, Hov, Hpa. cbn [negb orb].
  unfold Rich.holdPieceAction. rewrite Hp, Hch. cbn [negb]. rewrite Ecx.
  cbn [mbind option_bind].
  destruct (Rich.holdPiece s) as [h|] eqn:Eh.
  - destruct (Hh h eq_refl) as [Hsh _].
    destruct (centered_x_some (shape h) Hsh) as (hx & Ehx). rewrite Ehx.
    cbn [mbind option_bind]. eexists _, cx. split; [reflexivity|].
    split; [done|]. split; [done|]. split; [done|]. split; [done|].
    split; [intros h' E'; injection E' as <-; exists hx; done|].
    split; [discriminate|]. split.
    + cbn. rewrite Hst, Hov, Hpa. reflexivity.
    + apply (Hlock _ (mkPiece (shape h) hx 0 (colorIdx h))). reflexivity.
  - destruct (bag_next_ok us (Rich.bag s) Hb) as (d & b' & Eb & _). rewrite Eb.
    cbn [mbind option_bind]. eexists _, cx. split; [reflexivity|].
    split; [done|]. split; [done|]. split; [done|]. split; [done|].
    split; [discriminate|]. split; [done|].
    destruct (Rich.nextPieces s) as [|a q]; cbn in Hl; [discriminate|]. split.
    + cbn. rewrite Hst, Hov, Hpa. reflexivity.
    + apply (Hlock _ a). reflexivity.
Qed.

Lemma hold_once_per_piece_witness :
  exists s1 cx, Rich.handleKeyDown [] KHold rich_fresh = Some s1 /\
    centered_x (shape O_spawned) = Some cx /\ Rich.canHold s1 = false /\
    Rich.handleKeyDown [] KHold s1 = Some s1.
Proof.
  destruct (hold_once_per_piece [] [] [] rich_fresh O_spawned rich_fresh_ok)
    as (s1 & cx & E & Ecx & _ & Hc & _ & _ & _ & E2 & _);
    [split; [reflexivity|split; reflexivity]|reflexivity|reflexivity|].
  exists s1, cx. done.
Defined.

(** ** Clearing twice, and pieces that overlap the stack *)

Lemma filter_Forall_id {A} (P : A -> Prop) `{forall a, Decision (P a)} (l : list A) :
  Forall P l -> filter P l = l.
Proof.
  induction 1 as [|a l Ha _ IH]; [done|]. rewrite filter_cons_True by done. rewrite IH. done.
Qed.

(** [clearLines] leaves no full row behind: on a board of ROWS rows
    of colour numbers, running it a second time on its result changes
    nothing and clears no line. *)
Theorem clearLines_idempotent (g : board) (Hg : grid_ok g) :
  clearLines (clearLines g).1 = ((clearLines g).1, 0).
Proof.
  destruct (clearLines_ok g Hg) as [((HL & _) & _) Hz].
  remember (clearLines g).1 as g' eqn:E'. clear E'.
  unfold clearLines. rewrite has_zero_filter, filter_Forall_id by exact Hz.
  rewrite HL. unfold ROWS. cbn. reflexivity.
Qed.

Lemma clearLines_idempotent_witness :
  clearLines (clearLines fullBoard).1 = ((clearLines fullBoard).1, 0).
Proof.
  apply clearLines_idempotent. apply (bool_decide_unpack _). vm_compute. reflexivity.
Defined.

Lemma rich_lock_no_overlap (us : list nat) (s s' : Rich.State) (p : Piece) :
  Rich.piece s = Some p -> Rich.lockPiece us s = Some s' -> Rich.over s' = false ->
  exists p', Rich.piece s' = Some p' /\ collides (Rich.grid s') p' = false.
Proof.
  intros Hp E Ho. unfold Rich.lockPiece in E. rewrite Hp in E.
  destruct (merge (Rich.grid s) p) as [mg|]; cbn [mbind option_bind] in E; [|discriminate].
  destruct (clearLines mg) as [ng cl]. cbn [mbind option_bind] in E.
  destruct (Rich.bagNext us (Rich.bag s)) as [[d b']|]; cbn [mbind option_bind] in E;
    [|discriminate].
  destruct (Rich.nextPieces s !! 0%nat) as [q|]; cbn [mbind option_bind] in E; [|discriminate].
  injection E as <-. cbn in Ho |- *. apply orb_false_iff in Ho as [_ Ho].
  exists q. done.
Qed.

Lemma drop_loop_no_overlap (g : board) (p p' : Piece) :
  piece_ok p -> collides g p = false -> drop_loop (loop_fuel p) g p = Some p' ->
  collides g p' = false.
Proof.
  intros (Hs & _ & _) Hc E.
  destruct Hs as (R & C & HR & HC & HL & HF & (dy & dx & row & v & Hrow & Hv & Hv0)).
  destruct (drop_loop_stops g p dy dx (Z.to_nat (ROWS - y p))) as (p'' & E' & Hp' & Hle & _ & _ & Hfree).
  - exists row, v. done.
  - lia.
  - unfold loop_fuel in E. rewrite E' in E. injection E as ->.
    destruct (decide (y p = y p')) as [Heq|Hne].
    + rewrite Hp', <-Heq, with_y_y. done.
    + apply Hfree. lia.
Qed.

Ltac destr_coll E :=
  match type of E with
  | context [collides ?g ?q] => destruct (collides g q) eqn:?
  end.

(** In the richer game the active piece never overlaps the stack, except
    through hold: from a session whose active piece does not collide, every
    key but ['c'] and every gravity tick either ends the game or leaves an
    active piece that does not collide with the board (a lock that brings
    in a colliding piece sets [gameOver]).  ['c'] checks nothing: it can
    bring in the held piece on top of filled cells while the game goes on. *)
Theorem rich_no_overlap_but_hold :
  (forall us k s s' p, rich_ok s -> Rich.piece s = Some p -> collides (Rich.grid s) p = false ->
     k <> KHold ->
     (Rich.handleKeyDown us k s = Some s' \/ Rich.gravity us s = Some s') ->
     Rich.over s' = false ->
     exists p', Rich.piece s' = Some p' /\ collides (Rich.grid s') p' = false) /\
  (exists s s' p p', rich_ok s /\ rich_running s /\ Rich.piece s = Some p /\
     collides (Rich.grid s) p = false /\ Rich.handleKeyDown [] KHold s = Some s' /\
     Rich.over s' = false /\ Rich.piece s' = Some p' /\ collides (Rich.grid s') p' = true).
Proof.
  split.
  - intros us k s s' p Hok Hp Hc Hk [E|E] Ho.
    + unfold Rich.handleKeyDown in E.
      destruct (negb (Rich.started s) || Rich.over s || Rich.paused s);
        [injection E as <-; exists p; done|].
      destruct k.
      * unfold Rich.shift in E. rewrite Hp in E.
        destr_coll E; injection E as <-; [exists p; done|eexists; split; [reflexivity|done]].
      * unfold Rich.shift in E. rewrite Hp in E.
        destr_coll E; injection E as <-; [exists p; done|eexists; split; [reflexivity|done]].
      * rewrite Hp in E. destr_coll E.
        -- eapply rich_lock_no_overlap; done.
        -- injection E as <-. eexists; split; [reflexivity|done].
      * unfold Rich.hardDrop in E. rewrite Hp, hardDrop_loop_drop_loop in E.
        destruct Hok as (_ & _ & (p0 & Hp0 & Hpok) & _). rewrite Hp in Hp0. injection Hp0 as <-.
        destruct (drop_loop (loop_fuel p) (Rich.grid s) p) as [p'|] eqn:Ed;
          cbn [fmap option_fmap option_map mbind option_bind] in E; [|discriminate].
        injection E as <-. exists p'. split; [done|]. cbn.
        eapply drop_loop_no_overlap; done.
      * unfold Rich.rotatePiece in E. rewrite Hp in E.
        destruct (rotate_loop (shape p)); cbn [mbind option_bind] in E; [|discriminate].
        destr_coll E; cbn [negb] in E; injection E as <-;
          [exists p; done|eexists; split; [reflexivity|done]].
      * done.
      * injection E as <-. exists p. done.
      * injection E as <-. exists p. done.
    + unfold Rich.gravity in E.
      destruct (negb (Rich.started s) || Rich.over s || Rich.paused s);
        [injection E as <-; exists p; done|].
      rewrite Hp in E. destr_coll E.
      * eapply rich_lock_no_overlap; done.
      * injection E as <-. eexists; split; [reflexivity|done].
  - set (g1 := <[0%nat := <[3%nat := 1]> emptyRow]> emptyGrid).
    set (I0 := mkPiece [[1;1;1;1]] 3 0 1).
    set (s := Rich.mkState g1 (Some (with_y O_spawned 10)) [O_spawned; O_spawned; O_spawned]
                (Some I0) true 0 0 0 true false false []).
    assert (HO : spawned O_spawned) by (split; [cbn; lia|reflexivity]).
    assert (HI : spawned I0) by (split; [cbn; lia|reflexivity]).
    assert (Hc : collides g1 (with_y O_spawned 10) = false) by (vm_compute; reflexivity).
    exists s. eexists. exists (with_y O_spawned 10), (mkPiece [[1;1;1;1]] 3 0 1).
    split.
    { apply rich_ok_intro.
      - apply (bool_decide_unpack _). vm_compute. reflexivity.
      - apply (piece_ok_moved g1); [apply (spawned_piece_ok O_spawned HO)|cbn; lia|exact Hc].
      - reflexivity.
      - constructor; [done|constructor; [done|constructor; done]].
      - apply (bag_reachable_prefix [] (refillBag [])). constructor.
      - intros h E. injection E as <-. split; [apply (spawned_piece_ok I0 HI)|cbn; lia]. }
    split; [split; [reflexivity|split; reflexivity]|].
    split; [reflexivity|]. split; [exact Hc|].
    split; [reflexivity|]. split; [reflexivity|]. split; [reflexivity|].
    vm_compute. reflexivity.
Qed.

Lemma rich_no_overlap_but_hold_witness :
  exists s', Rich.handleKeyDown [] KDown rich_fresh = Some s' /\
    exists p', Rich.piece s' = Some p' /\ collides (Rich.grid s') p' = false.
Proof.
  destruct (Rich.handleKeyDown [] KDown rich_fresh) as [s'|] eqn:E;
    [|vm_compute in E; discriminate].
  exists s'. split; [reflexivity|].
  apply (proj1 rich_no_overlap_but_hold [] KDown rich_fresh s' O_spawned rich_fresh_ok);
    [reflexivity|vm_compute; reflexivity|discriminate|left; exact E|].
  vm_compute in E. injection E as <-. reflexivity.
Defined.

(** ** When the game ends *)

Lemma rich_lock_over (us : list nat) (s s' : Rich.State) :
  Rich.lockPiece us s = Some s' -> Rich.over s = false -> Rich.over s' = true ->
  exists q, Rich.piece s' = Some q /\ collides (Rich.grid s') q = true.
Proof.
  intros E Ho Ho'. unfold Rich.lockPiece in E.
  destruct (Rich.piece s) as [p|]; [|injection E as <-; congruence].
  destruct (merge (Rich.grid s) p) as [mg|]; cbn [mbind option_bind] in E; [|discriminate].
  destruct (clearLines mg) as [ng cl]. cbn [mbind option_bind] in E.
  destruct (Rich.bagNext us (Rich.bag s)) as [[d b']|]; cbn [mbind option_bind] in E;
    [|discriminate].
  destruct (Rich.nextPieces s !! 0%nat) as [q|]; cbn [mbind option_bind] in E; [|discriminate].
  injection E as <-. cbn in Ho' |- *. rewrite Ho in Ho'. exists q. done.
Qed.

(** The two rulesets end the game differently.  In the simple one only
    gravity sets [gameOver], and only when the piece is still on the top
    row ([y = 0]) and cannot fall; no key changes it.  In the richer one
    the game ends only on a lock (by [ArrowDown] or gravity) that brings in
    a piece overlapping the new board; afterwards that overlapping piece is
    the active piece. *)
Theorem game_over_conditions :
  (forall k s s', Simple.onKey k s = Some s' -> Simple.over s' = Simple.over s) /\
  (forall u s s', Simple.gravity u s = Some s' -> Simple.over s = false -> Simple.over s' = true ->
     Simple.started s = true /\ Simple.paused s = false /\ y (Simple.piece s) = 0 /\
     collides (Simple.grid s) (with_y (Simple.piece s) 1) = true) /\
  (forall us k s s', Rich.over s = false -> Rich.over s' = true ->
     (Rich.handleKeyDown us k s = Some s' \/ Rich.gravity us s = Some s') ->
     (k = KDown \/ Rich.gravity us s = Some s') /\
     exists q, Rich.piece s' = Some q /\ collides (Rich.grid s') q = true).
Proof.
  split; [|split].
  - intros k s s' E. unfold Simple.onKey in E.
    destruct (negb (Simple.started s) || Simple.over s); [injection E as <-; done|].
    destruct (Simple.onKey_np k (Simple.grid s) (Simple.piece s)); cbn [mbind option_bind] in E;
      [|discriminate].
    injection E as <-. destruct k; done.
  - intros u s s' E Ho Ho'. unfold Simple.gravity in E.
    destruct (Simple.started s) eqn:Est; cbn [negb orb] in E; [|injection E as <-; congruence].
    rewrite Ho in E. destruct (Simple.paused s) eqn:Epa; cbn [orb] in E;
      [injection E as <-; congruence|].
    destruct (collides _ _) eqn:Ec; [|injection E as <-; cbn in Ho'; congruence].
    destruct (y (Simple.piece s) =? 0) eqn:Ey.
    + apply Z.eqb_eq in Ey. rewrite Ey in Ec. done.
    + exfalso. unfold Simple.lock in E.
      destruct (merge _ _); cbn [mbind option_bind] in E; [|discriminate].
      destruct (clearLines _). injection E as <-. cbn in Ho'. congruence.
  - intros us k s s' Ho Ho' [E|E]; [|split; [right; done|]].
    + unfold Rich.handleKeyDown in E. rewrite Ho in E.
      destruct (negb (Rich.started s) || false || Rich.paused s); [injection E as <-; congruence|].
      destruct k.
      * unfold Rich.shift in E. destruct (Rich.piece s); [|injection E as <-; congruence].
        destruct (collides _ _); injection E as <-; cbn in Ho'; congruence.
      * unfold Rich.shift in E. destruct (Rich.piece s); [|injection E as <-; congruence].
        destruct (collides _ _); injection E as <-; cbn in Ho'; congruence.
      * split; [left; done|]. destruct (Rich.piece s); [|injection E as <-; congruence].
        destruct (collides _ _); [eapply rich_lock_over; eauto|].
        injection E as <-; cbn in Ho'; congruence.
      * unfold Rich.hardDrop in E. destruct (Rich.piece s); [|injection E as <-; congruence].
        destruct (hardDrop_loop _ _ _ _) as [[dp d]|]; cbn [mbind option_bind] in E; [|discriminate].
        injection E as <-. cbn in Ho'. congruence.
      * unfold Rich.rotatePiece in E. destruct (Rich.piece s); [|injection E as <-; congruence].
        destruct (rotate_loop _); cbn [mbind option_bind] in E; [|discriminate].
        destruct (negb _); injection E as <-; cbn in Ho'; congruence.
      * unfold Rich.holdPieceAction in E. destruct (Rich.piece s) as [p|];
          [|injection E as <-; congruence].
        destruct (negb (Rich.canHold s)); [injection E as <-; congruence|].
        destruct (Rich.holdPiece s) as [h|].
        -- destruct (centered_x (shape p)); cbn [mbind option_bind] in E; [|discriminate].
           destruct (centered_x (shape h)); cbn [mbind option_bind] in E; [|discriminate].
           injection E as <-. cbn in Ho'. congruence.
        -- destruct (centered_x (shape p)); cbn [mbind option_bind] in E; [|discriminate].
           destruct (Rich.bagNext _ _) as [[d b']|]; cbn [mbind option_bind] in E; [|discriminate].
           injection E as <-. cbn in Ho'. congruence.
      * injection E as <-. cbn in Ho'. congruence.
      * injection E as <-. congruence.
    + unfold Rich.gravity in E. rewrite Ho in E.
      destruct (negb (Rich.started s) || false || Rich.paused s); [injection E as <-; congruence|].
      destruct (Rich.piece s); [|injection E as <-; congruence].
      destruct (collides _ _); [eapply rich_lock_over; eauto|].
      injection E as <-; cbn in Ho'; congruence.
Qed.

Lemma game_over_conditions_witness :
  let s := Simple.mkState fullBoard O_spawned O_spawned 0 0 true false false in
  exists s', Simple.gravity 0 s = Some s' /\ Simple.over s' = true /\
    y (Simple.piece s) = 0 /\ collides (Simple.grid s) (with_y (Simple.piece s) 1) = true.
Proof.
  intros s. exists (Simple.set_over s true). split; [reflexivity|]. split; [reflexivity|].
  destruct (proj1 (proj2 game_over_conditions) 0%nat s (Simple.set_over s true))
    as (_ & _ & Hy & Hc); [reflexivity|reflexivity|reflexivity|].
  split; [exact Hy|exact Hc].
Defined.
